(** * OCaml symbol demangler ([llvm/lib/Demangle/OcamlDemangle.cpp])

    A shallow embedding of [hex] and [llvm::ocamlDemangle], and the
    properties of the decoder proved over it.

    Modelling conventions.
    - A [const char *] is the list of bytes found from the pointer on.  The
      string object it denotes is [c_str]: the bytes before the first NUL;
      the terminator sits at index [strlen] and belongs to the object.  A
      list holding no NUL stands for that content followed by its
      terminator.  Anything past the terminator is outside the object, and
      loading it is [OutOfBounds].
    - [char] values are the codes 0..255.  [isdigit] and [isxdigit] are the
      C library predicates of <cctype> in the C locale; no byte above 127
      is a digit.
    - [int] indices are unbounded naturals: strings are taken to be shorter
      than INT_MAX, as [int len = strlen(sym)] does.
    - [malloc] is taken to succeed; the buffer has [len + 1] cells and every
      write to it is checked against that capacity.
    - [ocamlDemangle_call] lifts these two conventions: it converts the
      length to [int] and takes the outcome of [malloc] as an argument.
    - [assert] is the macro of <cassert>: it aborts when its condition is
      false, unless the translation unit is compiled with NDEBUG. *)

From Stdlib Require Import Ascii String List ZArith Lia Bool Arith.
Import ListNotations.

Local Open Scope char_scope.
Local Open Scope nat_scope.

(** ** Outcomes of a run *)

Inductive error : Type :=
| AssertionFailed   (* [assert] aborted the process *)
| OutOfBounds       (* an access outside an object *)
| OutOfFuel.        (* the loop bound of the model was exhausted *)

Inductive outcome (A : Type) : Type :=
| Ok (a : A)
| Err (e : error).

Arguments Ok {A} a.
Arguments Err {A} e.

Definition bind {A B : Type} (m : outcome A) (k : A -> outcome B) : outcome B :=
  match m with
  | Ok a => k a
  | Err e => Err e
  end.

Notation "x <- m ;; k" := (bind m (fun x => k))
  (at level 61, m at next level, right associativity).
Notation "m ;;; k" := (bind m (fun _ => k))
  (at level 61, right associativity).

(** ** Bytes and C strings *)

Definition bytes := list ascii.

Definition str (s : string) : bytes := list_ascii_of_string s.

Definition code (c : ascii) : Z := Z.of_N (N_of_ascii c).

Definition char_of_Z (z : Z) : ascii := ascii_of_N (Z.to_N (z mod 256)).

Definition NUL : ascii := zero.

Definition is_nul (c : ascii) : bool := Ascii.eqb c NUL.

(** The string object at a pointer: the bytes before the first NUL. *)
Fixpoint c_str (mem : bytes) : bytes :=
  match mem with
  | [] => []
  | c :: m => if is_nul c then [] else c :: c_str m
  end.

Definition strlen (mem : bytes) : nat := length (c_str mem).

(** No byte of [l] is NUL: [l] can be the content of a C string. *)
Definition no_nul (l : bytes) : bool := forallb (fun c => negb (is_nul c)) l.

(** [sym[k]]: defined up to and including the terminator. *)
Definition load (sym : bytes) (k : nat) : outcome ascii :=
  if k <=? strlen sym then Ok (nth k (c_str sym) NUL) else Err OutOfBounds.

(** ** <cctype> *)

Definition in_range (lo hi c : ascii) : bool :=
  ((code lo <=? code c) && (code c <=? code hi))%Z.

Definition isdigit (c : ascii) : bool := in_range "0" "9" c.

Definition isxdigit (c : ascii) : bool :=
  in_range "0" "9" c || in_range "a" "f" c || in_range "A" "F" c.

(** ** [static unsigned int hex(char c)] *)

Definition UINT_MOD : Z := 2 ^ 32.

Definition hex (c : ascii) : Z :=
  if ((code "0" <=? code c) && (code c <=? code "9"))%Z
  then (code c - code "0") mod UINT_MOD
  else if ((code "a" <=? code c) && (code c <=? code "f"))%Z
  then (code c - code "a" + 10) mod UINT_MOD
  else (code c - code "A" + 10) mod UINT_MOD.

(** [(hex(a) << 4) | hex(b)], stored into a [char]. *)
Definition escape_byte (a b : ascii) : ascii :=
  char_of_Z (Z.lor (Z.shiftl (hex a) 4 mod UINT_MOD) (hex b)).

(** ** The output buffer

    [result] is written front to back only, so the model keeps the cells
    written so far; [j] is their number. *)

(** [result[j++] = c] on a buffer of [cap] cells. *)
Definition push (cap : nat) (out : bytes) (c : ascii) : outcome bytes :=
  if length out <? cap then Ok (out ++ [c]) else Err OutOfBounds.

(** [result[k]] on the written cells. *)
Definition read (buf : bytes) (k : nat) : outcome ascii :=
  match nth_error buf k with
  | Some c => Ok c
  | None => Err OutOfBounds
  end.

(** [result[k] = c] on the written cells. *)
Definition write (buf : bytes) (k : nat) (c : ascii) : outcome bytes :=
  if k <? length buf
  then Ok (firstn k buf ++ c :: skipn (S k) buf)
  else Err OutOfBounds.

(** ** The main scan *)

(** [sym[i] == '_' && sym[i + 1] == '_'] *)
Definition separator_at (sym : bytes) (i : nat) : outcome bool :=
  c <- load sym i ;;
  if Ascii.eqb c "_"
  then d <- load sym (i + 1) ;; Ok (Ascii.eqb d "_")
  else Ok false.

(** [sym[i] == '$' && isxdigit(sym[i + 1]) && isxdigit(sym[i + 2])] *)
Definition escape_at (sym : bytes) (i : nat) : outcome bool :=
  c <- load sym i ;;
  if Ascii.eqb c "$"
  then d <- load sym (i + 1) ;;
       if isxdigit d
       then e <- load sym (i + 2) ;; Ok (isxdigit e)
       else Ok false
  else Ok false.

(** One turn of the loop body at position [i]: the next position and the
    buffer. *)
Definition scan_step (sym : bytes) (cap i : nat) (out : bytes)
  : outcome (nat * bytes) :=
  sep <- separator_at sym i ;;
  if sep
  then out' <- push cap out "." ;; Ok (i + 2, out')
  else
    esc <- escape_at sym i ;;
    if esc
    then a <- load sym (i + 1) ;;
         b <- load sym (i + 2) ;;
         out' <- push cap out (escape_byte a b) ;;
         Ok (i + 3, out')
    else c <- load sym i ;;
         out' <- push cap out c ;;
         Ok (i + 1, out').

(** [while (i < len) { ... }] *)
Fixpoint scan_loop (fuel : nat) (sym : bytes) (len cap i : nat) (out : bytes)
  : outcome bytes :=
  if len <=? i then Ok out
  else
    match fuel with
    | O => Err OutOfFuel
    | S fuel' =>
        st <- scan_step sym cap i out ;;
        scan_loop fuel' sym len cap (fst st) (snd st)
    end.

(** The scan as [ocamlDemangle] runs it: from index 4, on an empty buffer
    of [len + 1] cells.  Every turn advances [i], so [len] turns are
    enough. *)
Definition main_scan (sym : bytes) : outcome bytes :=
  let len := strlen sym in
  scan_loop len sym len (len + 1) 4 [].

(** ** The suffix trim *)

(** [while (--j) { if (!isdigit(result[j])) break; }], entered with the
    value [j] has after the decrement. *)
Fixpoint trim_back (buf : bytes) (j : nat) : outcome nat :=
  match j with
  | O => Ok O
  | S j' =>
      c <- read buf j ;;
      if negb (isdigit c) then Ok j else trim_back buf j'
  end.

(** Lines 48-57, on the terminated buffer. *)
Definition suffix_trim (buf : bytes) (j : nat) : outcome bytes :=
  if negb (j =? 0)
  then
    c <- read buf (j - 1) ;;
    if isdigit c
    then
      j' <- trim_back buf (j - 1) ;;
      d <- read buf j' ;;
      if Ascii.eqb d "_" then write buf j' NUL else Ok buf
    else Ok buf
  else Ok buf.

(** [result[j] = '\0'], the trim, and the string the caller receives. *)
Definition finish (cap : nat) (out : bytes) : outcome bytes :=
  buf <- push cap out NUL ;;
  buf' <- suffix_trim buf (length out) ;;
  Ok (c_str buf').

(** ** [char *ocamlDemangle(const char *sym)] *)

Definition assert (NDEBUG cond : bool) : outcome unit :=
  if NDEBUG || cond then Ok tt else Err AssertionFailed.

Definition ocamlDemangle (NDEBUG : bool) (sym : bytes) : outcome bytes :=
  let len := strlen sym in
  assert NDEBUG (5 <=? len) ;;;
  out <- main_scan sym ;;
  finish (len + 1) out.

(** The evaluation, with assertions on, of a string literal. *)
Definition decode (s : string) : outcome bytes := ocamlDemangle false (str s).

(** ** The call with [int] and [malloc] made explicit

    [ocamlDemangle] above is the function on strings shorter than INT_MAX
    bytes with a buffer from [malloc].  Here the length goes through
    [int len = strlen(sym)] and the buffer has the cells [malloc] really
    gave: none when it returned NULL, which the code does not check. *)

Definition INT_MAX : Z := 2 ^ 31 - 1.

(** A size converted to [int]: modulo [2 ^ 32], into [-2 ^ 31 .. INT_MAX]. *)
Definition int_of_size (n : nat) : Z :=
  let r := (Z.of_nat n mod UINT_MOD)%Z in
  if (r <=? INT_MAX)%Z then r else (r - UINT_MOD)%Z.

(** The cells behind the pointer [malloc(len + 1)] returns: none behind
    NULL, and none for a negative [len + 1], a size no [malloc] grants.
    Below INT_MAX the sum does not overflow. *)
Definition malloc_cells (malloc_ok : bool) (len : Z) : nat :=
  if malloc_ok then Z.to_nat (len + 1) else 0.

(** Lines 20-59 with that length and that buffer; [while (i < len)] with a
    negative [len] makes no turn. *)
Definition ocamlDemangle_call (NDEBUG malloc_ok : bool) (sym : bytes)
  : outcome bytes :=
  let len := int_of_size (strlen sym) in
  assert NDEBUG (5 <=? len)%Z ;;;
  let cap := malloc_cells malloc_ok len in
  out <- scan_loop (strlen sym) sym (Z.to_nat len) cap 4 [] ;;
  finish cap out.

(** ** The decoder in the words of its specification

    These definitions follow the prose description of the decoder, on the
    bytes after the four-byte tag; they are what the code above is compared
    with. *)

(** The place of [c] in a row of digits. *)
Fixpoint digit_index (c : ascii) (digits : bytes) : option nat :=
  match digits with
  | [] => None
  | x :: rest =>
      if Ascii.eqb c x then Some 0 else option_map S (digit_index c rest)
  end.

(** "is a hex digit (0-9, a-f, A-F)", with the digit's value. *)
Definition hexValue (c : ascii) : option nat :=
  match digit_index c (str "0123456789abcdef") with
  | Some v => Some v
  | None => digit_index c (str "0123456789ABCDEF")
  end.

Definition is_hex_digit (c : ascii) : bool :=
  match hexValue c with Some _ => true | None => false end.

(** The byte of an escape triplet: [16 * hexValue d + hexValue e]. *)
Definition escape_value (d e : ascii) : option ascii :=
  match hexValue d, hexValue e with
  | Some h, Some l => Some (ascii_of_nat (16 * h + l))
  | _, _ => None
  end.

(** Rules 1, 2 and 3, in that order, on what is left of the input. *)
Fixpoint spec_scan (s : bytes) : bytes :=
  match s with
  | [] => []
  | c :: t =>
      match t with
      | [] => [c]
      | d :: u =>
          if Ascii.eqb c "_" && Ascii.eqb d "_" then "." :: spec_scan u
          else
            match u with
            | [] => c :: spec_scan t
            | e :: v =>
                match (if Ascii.eqb c "$" then escape_value d e else None) with
                | Some b => b :: spec_scan v
                | None => c :: spec_scan t
                end
            end
      end
  end.

(** The backward scan over decimal digits, on the reversed output. *)
Fixpoint drop_digits (r : bytes) : bytes :=
  match r with
  | [] => []
  | c :: r' => if isdigit c then drop_digits r' else r
  end.

(** An adjacent pair of underscores somewhere in [s]. *)
Fixpoint has_separator (s : bytes) : bool :=
  match s with
  | [] => false
  | c :: t =>
      match t with
      | [] => false
      | d :: _ => (Ascii.eqb c "_" && Ascii.eqb d "_") || has_separator t
      end
  end.

(** A dollar followed by two hex digits somewhere in [s]. *)
Fixpoint has_escape (s : bytes) : bool :=
  match s with
  | [] => false
  | c :: t =>
      match t with
      | d :: e :: _ =>
          (Ascii.eqb c "$" && is_hex_digit d && is_hex_digit e) || has_escape t
      | _ => false
      end
  end.

(** The trailing numeric suffix: [s] is not empty, its last byte is a
    decimal digit, and the byte before its trailing digits is an
    underscore. *)
Definition has_numeric_suffix (s : bytes) : bool :=
  match rev s with
  | [] => false
  | c :: r =>
      isdigit c &&
      match drop_digits r with
      | [] => false
      | x :: _ => Ascii.eqb x "_"
      end
  end.

(** ** Shapes of input used to state properties *)

(** A byte that starts no token and ends no string. *)
Definition plain (c : ascii) : bool :=
  negb (Ascii.eqb c "_") && negb (Ascii.eqb c "$") && negb (is_nul c).

(** [parts] put one after the other with [sep] between them. *)
Fixpoint join (sep : bytes) (parts : list bytes) : bytes :=
  match parts with
  | [] => []
  | p :: rest =>
      match rest with
      | [] => p
      | _ :: _ => p ++ sep ++ join sep rest
      end
  end.

Definition all_plain (parts : list bytes) : bool := forallb (forallb plain) parts.

(** ** Proof steps used more than once *)

(** Case analysis on the 256 values of a byte. *)
Ltac each_char c :=
  destruct c as [[] [] [] [] [] [] [] []].

(** After one turn of the loop: go on with the induction hypothesis [IH]
    on the new split [pre'], [rest'] of the input [E]. *)
Ltac next_turn IH E pre' rest' :=
  cbn [bind fst snd];
  rewrite (IH pre' rest');
  [ rewrite <- app_assoc; reflexivity
  | rewrite E, <- app_assoc; reflexivity
  | rewrite length_app; simpl; lia
  | simpl in *; lia
  | rewrite length_app; simpl; lia ].

(** * Properties *)

(** ** C strings and loads *)

Lemma c_str_length (mem : bytes) : length (c_str mem) <= length mem.
Proof.
  induction mem as [|c m IH]; simpl; [lia|].
  destruct (is_nul c); simpl; lia.
Qed.

Lemma c_str_no_nul (mem : bytes) : no_nul (c_str mem) = true.
Proof.
  unfold no_nul. induction mem as [|c m IH]; simpl; [reflexivity|].
  destruct (is_nul c) eqn:E; simpl; [reflexivity|].
  now rewrite E, IH.
Qed.

Lemma c_str_fixed (l : bytes) : no_nul l = true -> c_str l = l.
Proof.
  unfold no_nul. induction l as [|c m IH]; simpl; [reflexivity|].
  intros H. apply andb_prop in H. destruct H as [Hc Hm].
  destruct (is_nul c); [discriminate|]. now rewrite IH.
Qed.

Lemma c_str_idem (mem : bytes) : c_str (c_str mem) = c_str mem.
Proof. apply c_str_fixed, c_str_no_nul. Qed.

Lemma c_str_prefix_fixed (p q : bytes) : no_nul (p ++ q) = true -> c_str p = p.
Proof.
  unfold no_nul. rewrite forallb_app. intros H. apply andb_prop in H.
  now apply c_str_fixed.
Qed.

Lemma c_str_app_nul (p q : bytes) : c_str (p ++ NUL :: q) = c_str p.
Proof.
  induction p as [|c p IH]; simpl; [reflexivity|].
  destruct (is_nul c); [reflexivity|]. now rewrite IH.
Qed.

Lemma c_str_terminated (p : bytes) : c_str (p ++ [NUL]) = c_str p.
Proof. apply c_str_app_nul. Qed.

Lemma forallb_skipn {A} (f : A -> bool) (n : nat) (l : list A) :
  forallb f l = true -> forallb f (skipn n l) = true.
Proof.
  revert l. induction n as [|n IH]; intros [|a l]; simpl; auto.
  intros H. apply andb_prop in H. now apply IH.
Qed.

(** A load at offset [k] of the part [rest] of the string still to be
    scanned; offset [length rest] is the terminator. *)
Lemma load_at (sym pre rest : bytes) (i k : nat) :
  c_str sym = pre ++ rest ->
  i = length pre ->
  k <= length rest ->
  load sym (i + k) = Ok (nth k rest NUL).
Proof.
  intros E -> Hk. unfold load, strlen. rewrite E, length_app.
  destruct (Nat.leb_spec (length pre + k) (length pre + length rest)); [|lia].
  rewrite app_nth2 by lia. do 2 f_equal. lia.
Qed.

Lemma load_terminator (sym : bytes) : load sym (strlen sym) = Ok NUL.
Proof.
  unfold load. rewrite Nat.leb_refl. f_equal.
  apply nth_overflow. unfold strlen. lia.
Qed.

Lemma load_out_of_bounds (sym : bytes) (k : nat) :
  strlen sym < k <-> load sym k = Err OutOfBounds.
Proof.
  unfold load. destruct (Nat.leb_spec k (strlen sym)); split; intros; try lia; try discriminate; auto.
Qed.

(** ** [hex] and [isxdigit] against the digit table *)

Lemma isxdigit_hexValue (c : ascii) : isxdigit c = is_hex_digit c.
Proof. each_char c; reflexivity. Qed.

Lemma hex_hexValue (c : ascii) (v : nat) :
  hexValue c = Some v -> hex c = Z.of_nat v /\ v < 16.
Proof.
  each_char c; intros H; vm_compute in H; try discriminate H;
    injection H as <-; (split; [reflexivity | lia]).
Qed.

Lemma nibbles_byte (h l : nat) :
  h < 16 -> l < 16 ->
  char_of_Z (Z.lor (Z.shiftl (Z.of_nat h) 4 mod UINT_MOD) (Z.of_nat l))
  = ascii_of_nat (16 * h + l).
Proof.
  intros Hh Hl.
  do 16 (destruct h as [|h]; [ do 16 (destruct l as [|l]; [reflexivity|]); lia |]).
  lia.
Qed.

Lemma escape_byte_value (d e b : ascii) :
  escape_value d e = Some b -> escape_byte d e = b.
Proof.
  unfold escape_value, escape_byte.
  destruct (hexValue d) as [h|] eqn:Hd; [|discriminate].
  destruct (hexValue e) as [l|] eqn:He; [|discriminate].
  intros H. injection H as <-.
  destruct (hex_hexValue _ _ Hd) as [-> Hh].
  destruct (hex_hexValue _ _ He) as [-> Hl].
  now apply nibbles_byte.
Qed.

Lemma escape_value_digits (d e : ascii) :
  isxdigit d && isxdigit e = match escape_value d e with Some _ => true | None => false end.
Proof.
  rewrite !isxdigit_hexValue. unfold escape_value, is_hex_digit.
  destruct (hexValue d), (hexValue e); reflexivity.
Qed.

(** ** The main scan against rules 1-3 *)

Lemma scan_loop_S fuel sym len cap i out :
  scan_loop (S fuel) sym len cap i out =
  if len <=? i then Ok out
  else st <- scan_step sym cap i out ;; scan_loop fuel sym len cap (fst st) (snd st).
Proof. reflexivity. Qed.

Lemma scan_loop_done fuel sym len cap i out :
  len <= i -> scan_loop fuel sym len cap i out = Ok out.
Proof.
  intros H. destruct fuel; simpl; destruct (Nat.leb_spec len i); auto; lia.
Qed.

Lemma push_ok cap out c : length out < cap -> push cap out c = Ok (out ++ [c]).
Proof. unfold push. destruct (Nat.ltb_spec (length out) cap); auto; lia. Qed.

(** One turn of the loop at the head of [rest], against rules 1-3. *)
Lemma scan_step_spec (sym pre : bytes) (c : ascii) (t : bytes) (cap i : nat) (out : bytes) :
  c_str sym = pre ++ c :: t ->
  i = length pre ->
  length out < cap ->
  scan_step sym cap i out =
  match t with
  | [] => Ok (i + 1, out ++ [c])
  | d :: u =>
      if Ascii.eqb c "_" && Ascii.eqb d "_" then Ok (i + 2, out ++ ["."])
      else
        match u with
        | [] => Ok (i + 1, out ++ [c])
        | e :: v =>
            match (if Ascii.eqb c "$" then escape_value d e else None) with
            | Some b => Ok (i + 3, out ++ [b])
            | None => Ok (i + 1, out ++ [c])
            end
        end
  end.
Proof.
  intros E Hi Hcap.
  assert (L0 : load sym i = Ok c).
  { replace i with (i + 0) by lia. rewrite (load_at sym pre (c :: t) i 0 E Hi); [reflexivity | simpl; lia]. }
  assert (L1 : load sym (i + 1) = Ok (nth 0 t NUL)).
  { rewrite (load_at sym pre (c :: t) i 1 E Hi); [reflexivity | simpl; lia]. }
  assert (L2 : 1 <= length t -> load sym (i + 2) = Ok (nth 1 t NUL)).
  { intros H. rewrite (load_at sym pre (c :: t) i 2 E Hi); [reflexivity | simpl; lia]. }
  unfold scan_step, separator_at, escape_at.
  rewrite L0. cbn [bind].
  destruct (Ascii.eqb c "_") eqn:Ec.
  - rewrite L1. cbn [bind].
    apply Ascii.eqb_eq in Ec. subst c. cbn [Ascii.eqb Bool.eqb andb].
    destruct t as [|d u]; cbn [nth].
    + cbn. rewrite push_ok by assumption. reflexivity.
    + destruct (Ascii.eqb d "_") eqn:Ed; cbn [bind andb].
      * rewrite push_ok by assumption. reflexivity.
      * rewrite push_ok by assumption. destruct u; reflexivity.
  - cbn [bind andb].
    destruct (Ascii.eqb c "$") eqn:Ed.
    + rewrite L1. cbn [bind].
      destruct t as [|d u]; cbn [nth].
      * cbn. rewrite push_ok by assumption. reflexivity.
      * destruct u as [|e v].
        -- destruct (isxdigit d).
           ++ rewrite L2 by (simpl; lia). cbn. rewrite push_ok by assumption. reflexivity.
           ++ cbn. rewrite push_ok by assumption. reflexivity.
        -- pose proof (escape_value_digits d e) as X.
           destruct (isxdigit d) eqn:Xd.
           ++ rewrite L2 by (simpl; lia). cbn [bind nth].
              cbn [andb] in X.
              destruct (escape_value d e) as [b|] eqn:Eb.
              ** rewrite X. cbn [bind nth].
                 rewrite (escape_byte_value _ _ _ Eb).
                 rewrite push_ok by assumption. reflexivity.
              ** rewrite X. cbn [bind]. rewrite push_ok by assumption. reflexivity.
           ++ cbn [andb] in X. destruct (escape_value d e); [discriminate|].
              cbn [bind]. rewrite push_ok by assumption. reflexivity.
    + cbn [bind]. rewrite push_ok by assumption.
      destruct t as [|d u]; [reflexivity|]. destruct u; reflexivity.
Qed.

Lemma scan_loop_spec (sym : bytes) (fuel : nat) :
  forall (pre rest : bytes) (i : nat) (out : bytes),
    c_str sym = pre ++ rest ->
    i = length pre ->
    length rest <= fuel ->
    length out <= i ->
    scan_loop fuel sym (strlen sym) (strlen sym + 1) i out
    = Ok (out ++ spec_scan rest).
Proof.
  induction fuel as [|fuel IH]; intros pre rest i out E Hi Hf Ho;
    assert (Hlen : strlen sym = length pre + length rest)
      by (unfold strlen; now rewrite E, length_app).
  - destruct rest; [|simpl in Hf; lia].
    rewrite scan_loop_done by (simpl in Hlen; lia). now rewrite app_nil_r.
  - destruct rest as [|c t].
    { rewrite scan_loop_done by (simpl in Hlen; lia). now rewrite app_nil_r. }
    rewrite scan_loop_S. simpl in Hlen.
    destruct (Nat.leb_spec (strlen sym) i); [lia|].
    rewrite (scan_step_spec sym pre c t _ i out E Hi) by lia.
    destruct t as [|d u].
    { next_turn IH E (pre ++ [c]) (@nil ascii). }
    cbn [spec_scan].
    destruct (Ascii.eqb c "_" && Ascii.eqb d "_").
    { next_turn IH E (pre ++ [c; d]) u. }
    destruct u as [|e v].
    { next_turn IH E (pre ++ [c]) [d]. }
    destruct (if Ascii.eqb c "$" then escape_value d e else None).
    + next_turn IH E (pre ++ [c; d; e]) v.
    + next_turn IH E (pre ++ [c]) (d :: e :: v).
Qed.

Lemma main_scan_spec (sym : bytes) :
  main_scan sym = Ok (spec_scan (skipn 4 (c_str sym))).
Proof.
  unfold main_scan.
  destruct (Nat.le_gt_cases 4 (strlen sym)) as [H|H].
  - rewrite (scan_loop_spec sym (strlen sym) (firstn 4 (c_str sym)) (skipn 4 (c_str sym))).
    + reflexivity.
    + now rewrite firstn_skipn.
    + rewrite length_firstn. unfold strlen in H. lia.
    + rewrite length_skipn. unfold strlen. lia.
    + simpl. lia.
  - rewrite scan_loop_done by lia.
    rewrite skipn_all2 by (unfold strlen in H; lia). reflexivity.
Qed.

(** ** The suffix trim *)

Lemma read_at (a b : bytes) (x : ascii) (k : nat) :
  k = length a -> read (a ++ x :: b) k = Ok x.
Proof.
  intros ->. unfold read. rewrite nth_error_app2 by lia.
  now rewrite Nat.sub_diag.
Qed.

Lemma write_at (a b : bytes) (x c : ascii) (k : nat) :
  k = length a -> write (a ++ x :: b) k c = Ok (a ++ c :: b).
Proof.
  intros ->. unfold write. rewrite length_app. simpl length.
  destruct (Nat.ltb_spec (length a) (length a + S (length b))); [|lia].
  assert (F : firstn (length a) (a ++ x :: b) = a).
  { rewrite firstn_app, firstn_all, Nat.sub_diag. simpl. apply app_nil_r. }
  assert (K : skipn (S (length a)) (a ++ x :: b) = b).
  { replace (a ++ x :: b) with ((a ++ [x]) ++ b) by (now rewrite <- app_assoc).
    rewrite skipn_app, length_app.
    rewrite skipn_all2 by (rewrite length_app; simpl; lia).
    simpl length. replace (S (length a) - (length a + 1)) with 0 by lia.
    reflexivity. }
  now rewrite F, K.
Qed.

Lemma isdigit_not_underscore (c : ascii) : isdigit c = true -> Ascii.eqb c "_" = false.
Proof.
  destruct (Ascii.eqb c "_") eqn:E; [|reflexivity].
  apply Ascii.eqb_eq in E. subst c. intros H. discriminate H.
Qed.

(** The backward loop stops on the first non-digit before the trailing
    digits, or at index 0. *)
Lemma trim_back_spec (ds : bytes) :
  forall (p : bytes) (x : ascii) (tail : bytes),
    forallb isdigit ds = true ->
    p = [] \/ isdigit x = false ->
    trim_back (p ++ x :: ds ++ tail) (length p + length ds) = Ok (length p).
Proof.
  induction ds as [|d ds IH] using rev_ind; intros p x tail Hds Hx.
  - change ([] ++ tail) with tail. cbn [length]. rewrite Nat.add_0_r.
    destruct Hx as [-> | Hx]; [reflexivity|].
    destruct p as [|a p]; [reflexivity|].
    cbn [trim_back length].
    change (S (length p)) with (length (a :: p)).
    rewrite (read_at (a :: p) tail x) by reflexivity. cbn [bind].
    now rewrite Hx.
  - rewrite forallb_app in Hds. apply andb_prop in Hds. destruct Hds as [Hds Hd].
    simpl in Hd. rewrite andb_true_r in Hd.
    rewrite length_app. simpl length.
    replace (length p + (length ds + 1)) with (S (length p + length ds)) by lia.
    cbn [trim_back].
    replace (p ++ x :: (ds ++ [d]) ++ tail) with ((p ++ x :: ds) ++ d :: tail)
      by (rewrite <- !app_assoc; reflexivity).
    rewrite read_at by (rewrite length_app; simpl; lia).
    cbn [bind]. rewrite Hd. cbn [negb].
    replace ((p ++ x :: ds) ++ d :: tail) with (p ++ x :: ds ++ d :: tail)
      by (rewrite <- !app_assoc; reflexivity).
    now apply IH.
Qed.

Lemma read_last_digit (p : bytes) (x : ascii) (ds tail : bytes) :
  forallb isdigit ds = true ->
  (ds = [] -> isdigit x = true) ->
  exists c, read (p ++ x :: ds ++ tail) (length p + length ds) = Ok c
            /\ isdigit c = true.
Proof.
  intros Hds Hx. destruct ds as [|d ds] using rev_ind.
  - exists x. split; [|auto]. apply read_at. simpl. lia.
  - clear IHds. exists d. rewrite forallb_app in Hds. apply andb_prop in Hds.
    destruct Hds as [_ Hd]. simpl in Hd. rewrite andb_true_r in Hd.
    split; [|assumption].
    replace (p ++ x :: (ds ++ [d]) ++ tail) with ((p ++ x :: ds) ++ d :: tail)
      by (rewrite <- !app_assoc; reflexivity).
    apply read_at. rewrite !length_app. simpl. lia.
Qed.

(** The trim on a scan output that ends in a digit: [x] is the byte the
    backward loop stops on. *)
Lemma suffix_trim_digits (p : bytes) (x : ascii) (ds : bytes) :
  forallb isdigit ds = true ->
  (ds = [] -> isdigit x = true) ->
  p = [] \/ isdigit x = false ->
  suffix_trim ((p ++ x :: ds) ++ [NUL]) (length (p ++ x :: ds))
  = Ok (if Ascii.eqb x "_" then p ++ NUL :: ds ++ [NUL]
        else (p ++ x :: ds) ++ [NUL]).
Proof.
  intros Hds Hlast Hx.
  replace ((p ++ x :: ds) ++ [NUL]) with (p ++ x :: ds ++ [NUL])
    by (rewrite <- !app_assoc; reflexivity).
  rewrite length_app. simpl length.
  unfold suffix_trim.
  replace (length p + S (length ds) =? 0) with false
    by (symmetry; apply Nat.eqb_neq; lia).
  cbn [negb].
  replace (length p + S (length ds) - 1) with (length p + length ds) by lia.
  destruct (read_last_digit p x ds [NUL] Hds Hlast) as (c & -> & Hc).
  cbn [bind]. rewrite Hc.
  rewrite trim_back_spec by assumption. cbn [bind].
  rewrite read_at by reflexivity. cbn [bind].
  destruct (Ascii.eqb x "_"); [|reflexivity].
  now apply write_at.
Qed.

Lemma suffix_trim_no_digit (out : bytes) :
  (match rev out with [] => true | c :: _ => negb (isdigit c) end) = true ->
  suffix_trim (out ++ [NUL]) (length out) = Ok (out ++ [NUL]).
Proof.
  destruct out as [|c out] using rev_ind; [reflexivity|]. clear IHout.
  rewrite rev_app_distr. simpl. intros Hc.
  unfold suffix_trim. rewrite length_app. simpl length.
  replace (length out + 1 =? 0) with false by (symmetry; apply Nat.eqb_neq; lia).
  cbn [negb]. replace (length out + 1 - 1) with (length out) by lia.
  replace ((out ++ [c]) ++ [NUL]) with (out ++ c :: [NUL])
    by (rewrite <- app_assoc; reflexivity).
  rewrite read_at by reflexivity. cbn [bind].
  apply negb_true_iff in Hc. now rewrite Hc.
Qed.

Lemma forallb_snoc {A} (f : A -> bool) (l : list A) (a : A) :
  forallb f (l ++ [a]) = forallb f l && f a.
Proof. rewrite forallb_app. simpl. now rewrite andb_true_r. Qed.

Lemma forallb_rev' {A} (f : A -> bool) (l : list A) :
  forallb f (rev l) = forallb f l.
Proof.
  induction l as [|a l IH]; [reflexivity|].
  simpl. rewrite forallb_snoc, IH. apply andb_comm.
Qed.

Lemma drop_digits_app (a b : bytes) :
  forallb isdigit a = true -> drop_digits (a ++ b) = drop_digits b.
Proof.
  induction a as [|c a IH]; [reflexivity|].
  simpl. intros H. apply andb_prop in H. destruct H as [-> H]. auto.
Qed.

Lemma drop_digits_split (r : bytes) :
  exists a, r = a ++ drop_digits r
            /\ forallb isdigit a = true
            /\ match drop_digits r with
               | [] => True
               | x :: _ => isdigit x = false
               end.
Proof.
  induction r as [|c r (a & E & Ha & Hx)].
  - exists []. repeat split.
  - simpl. destruct (isdigit c) eqn:Hc.
    + exists (c :: a). simpl. rewrite Hc, Ha. repeat split; [now f_equal | assumption].
    + exists []. repeat split. assumption.
Qed.

Lemma has_numeric_suffix_intro (p ds : bytes) :
  ds <> [] -> forallb isdigit ds = true ->
  has_numeric_suffix (p ++ "_" :: ds) = true.
Proof.
  intros Hne Hds. destruct ds as [|c ds _] using rev_ind; [congruence|].
  rewrite forallb_snoc in Hds. apply andb_prop in Hds. destruct Hds as [Hds Hc].
  unfold has_numeric_suffix.
  replace (p ++ "_" :: ds ++ [c]) with ((p ++ "_" :: ds) ++ [c])
    by (rewrite <- !app_assoc; reflexivity).
  rewrite rev_app_distr. cbn [rev app]. rewrite Hc.
  rewrite rev_app_distr. cbn [rev]. rewrite <- app_assoc. cbn [app].
  rewrite drop_digits_app by (now rewrite forallb_rev').
  reflexivity.
Qed.

(** How a scan output ends: in no digit, or in the digits [ds] (or [x] and
    [ds], if all of it is digits) with the backward loop stopping on [x]. *)
Lemma digit_run_cases (out : bytes) :
  (match rev out with [] => true | c :: _ => negb (isdigit c) end = true
   /\ has_numeric_suffix out = false)
  \/ exists p x ds,
       out = p ++ x :: ds
       /\ forallb isdigit ds = true
       /\ (ds = [] -> isdigit x = true)
       /\ (p = [] \/ isdigit x = false)
       /\ (ds = [] -> Ascii.eqb x "_" = false)
       /\ has_numeric_suffix out = Ascii.eqb x "_".
Proof.
  unfold has_numeric_suffix.
  destruct (rev out) as [|c r] eqn:E.
  { left. split; reflexivity. }
  destruct (isdigit c) eqn:Hc.
  2:{ left. split; reflexivity. }
  right. apply (f_equal (@rev ascii)) in E. rewrite rev_involutive in E.
  cbn [rev] in E. cbn [andb].
  destruct (drop_digits_split r) as (a & Er & Ha & Hx).
  destruct (drop_digits r) as [|x q].
  - rewrite app_nil_r in Er. subst a.
    assert (Hall : forallb isdigit out = true).
    { rewrite E, forallb_snoc, forallb_rev', Ha, Hc. reflexivity. }
    destruct out as [|x ds].
    { destruct (rev r); discriminate E. }
    simpl in Hall. apply andb_prop in Hall. destruct Hall as [Hx' Hds].
    exists [], x, ds. repeat split; auto using isdigit_not_underscore.
    now rewrite isdigit_not_underscore.
  - exists (rev q), x, (rev a ++ [c]).
    repeat split.
    + rewrite E, Er, rev_app_distr. cbn [rev]. rewrite <- !app_assoc. reflexivity.
    + now rewrite forallb_snoc, forallb_rev', Ha, Hc.
    + intros H. destruct (rev a); discriminate H.
    + now right.
    + intros H. destruct (rev a); discriminate H.
Qed.

Lemma finish_unfold (cap : nat) (out : bytes) :
  length out < cap ->
  finish cap out = buf' <- suffix_trim (out ++ [NUL]) (length out) ;; Ok (c_str buf').
Proof. intros H. unfold finish. now rewrite push_ok. Qed.

(** The cut: the returned string is what precedes the underscore. *)
Lemma finish_cut (cap : nat) (p ds : bytes) :
  length (p ++ "_" :: ds) < cap ->
  ds <> [] -> forallb isdigit ds = true ->
  finish cap (p ++ "_" :: ds) = Ok (c_str p).
Proof.
  intros Hcap Hne Hds. rewrite finish_unfold by assumption.
  rewrite suffix_trim_digits; [| assumption | congruence | now right].
  cbn [bind]. change (Ascii.eqb "_" "_") with true. cbn iota.
  now rewrite c_str_app_nul.
Qed.

(** No cut: the returned string is the scan output. *)
Lemma finish_keep (cap : nat) (out : bytes) :
  length out < cap ->
  has_numeric_suffix out = false ->
  finish cap out = Ok (c_str out).
Proof.
  intros Hcap Hs. rewrite finish_unfold by assumption.
  destruct (digit_run_cases out) as [[Hno _] | (p & x & ds & -> & Hds & Hlast & Hx & _ & Hsuf)].
  - rewrite suffix_trim_no_digit by assumption. cbn [bind].
    now rewrite c_str_terminated.
  - rewrite suffix_trim_digits by assumption.
    rewrite <- Hsuf, Hs. cbn [bind]. now rewrite c_str_terminated.
Qed.

Lemma has_numeric_suffix_elim (out : bytes) :
  has_numeric_suffix out = true ->
  exists p ds, out = p ++ "_" :: ds /\ ds <> [] /\ forallb isdigit ds = true.
Proof.
  intros Hs.
  destruct (digit_run_cases out) as [[_ Hno] | (p & x & ds & -> & Hds & _ & _ & Hne & Hsuf)].
  - congruence.
  - rewrite Hs in Hsuf. symmetry in Hsuf.
    exists p, ds. apply Ascii.eqb_eq in Hsuf as Hx. subst x.
    repeat split; auto. intros ->. specialize (Hne eq_refl). discriminate Hne.
Qed.

Lemma finish_length (cap : nat) (out : bytes) :
  length out < cap ->
  exists res, finish cap out = Ok res /\ length res <= length out.
Proof.
  intros Hcap. destruct (has_numeric_suffix out) eqn:Hs.
  - destruct (has_numeric_suffix_elim out Hs) as (p & ds & E & Hne & Hds).
    exists (c_str p). subst out. split; [now apply finish_cut|].
    pose proof (c_str_length p). rewrite length_app. lia.
  - exists (c_str out). split; [now apply finish_keep | apply c_str_length].
Qed.
(** ** Consequences for the whole function *)

Lemma spec_scan_two (c d : ascii) :
  spec_scan [c; d] = if Ascii.eqb c "_" && Ascii.eqb d "_" then ["."] else [c; d].
Proof. reflexivity. Qed.

Lemma spec_scan_three (c d e : ascii) (v : bytes) :
  spec_scan (c :: d :: e :: v) =
  if Ascii.eqb c "_" && Ascii.eqb d "_" then "." :: spec_scan (e :: v)
  else match (if Ascii.eqb c "$" then escape_value d e else None) with
       | Some b => b :: spec_scan v
       | None => c :: spec_scan (d :: e :: v)
       end.
Proof. reflexivity. Qed.

Lemma spec_scan_length_le (n : nat) :
  forall s, length s <= n -> length (spec_scan s) <= length s.
Proof.
  induction n as [|n IH]; intros s Hn.
  - destruct s; [simpl; lia | simpl in Hn; lia].
  - destruct s as [|c [|d [|e v]]]; [simpl; lia | simpl; lia | |].
    + rewrite spec_scan_two.
      destruct (Ascii.eqb c "_" && Ascii.eqb d "_"); simpl; lia.
    + rewrite spec_scan_three. simpl in Hn.
      assert (H1 : length (spec_scan v) <= length v) by (apply IH; lia).
      assert (H2 : length (spec_scan (e :: v)) <= length (e :: v))
        by (apply IH; simpl; lia).
      assert (H3 : length (spec_scan (d :: e :: v)) <= length (d :: e :: v))
        by (apply IH; simpl; lia).
      cbn [length] in H2, H3.
      destruct (Ascii.eqb c "_" && Ascii.eqb d "_"); [cbn [length]; lia|].
      destruct (if Ascii.eqb c "$" then escape_value d e else None);
        cbn [length]; lia.
Qed.

Lemma spec_scan_length (s : bytes) : length (spec_scan s) <= length s.
Proof. now apply (spec_scan_length_le (length s)). Qed.

Lemma assert_passes (ndebug : bool) (sym : bytes) :
  5 <= strlen sym -> assert ndebug (5 <=? strlen sym) = Ok tt.
Proof.
  intros H. unfold assert. destruct (Nat.leb_spec 5 (strlen sym)); [|lia].
  now rewrite orb_true_r.
Qed.

(** Past the assertion, the function is the two passes in sequence. *)
Lemma ocamlDemangle_run (ndebug : bool) (sym : bytes) :
  5 <= strlen sym ->
  ocamlDemangle ndebug sym
  = finish (strlen sym + 1) (spec_scan (skipn 4 (c_str sym))).
Proof.
  intros H. unfold ocamlDemangle.
  rewrite assert_passes by assumption. cbn [bind].
  now rewrite main_scan_spec.
Qed.

Lemma scan_fits (sym : bytes) :
  length (spec_scan (skipn 4 (c_str sym))) < strlen sym + 1.
Proof.
  pose proof (spec_scan_length (skipn 4 (c_str sym))) as H.
  rewrite length_skipn in H. unfold strlen. lia.
Qed.

Lemma scan_short (sym : bytes) :
  length (spec_scan (skipn 4 (c_str sym))) <= strlen sym - 4.
Proof.
  pose proof (spec_scan_length (skipn 4 (c_str sym))) as H.
  rewrite length_skipn in H. unfold strlen. lia.
Qed.

Lemma ocamlDemangle_cut (ndebug : bool) (sym p ds : bytes) :
  main_scan sym = Ok (p ++ "_" :: ds) ->
  ds <> [] -> forallb isdigit ds = true ->
  ocamlDemangle ndebug sym = Ok (c_str p).
Proof.
  intros Hscan Hne Hds.
  rewrite main_scan_spec in Hscan.
  assert (E : spec_scan (skipn 4 (c_str sym)) = p ++ "_" :: ds) by congruence.
  clear Hscan. rename E into Hscan.
  pose proof (scan_short sym) as Hlen. pose proof (scan_fits sym) as Hfit.
  rewrite Hscan in Hlen, Hfit. 
  assert (5 <= strlen sym) by (rewrite length_app in Hlen; simpl in Hlen; lia).
  rewrite ocamlDemangle_run by assumption. rewrite Hscan.
  now apply finish_cut.
Qed.

Lemma has_separator_tail (c : ascii) (t : bytes) :
  has_separator (c :: t) = false -> has_separator t = false.
Proof.
  simpl. destruct t as [|d u]; [reflexivity|].
  intros H. now apply orb_false_elim in H.
Qed.

Lemma has_escape_tail (c : ascii) (t : bytes) :
  has_escape (c :: t) = false -> has_escape t = false.
Proof.
  cbn [has_escape]. destruct t as [|d [|e v]]; [reflexivity..|].
  intros H. now apply orb_false_elim in H.
Qed.

Lemma has_separator_skipn (n : nat) : forall s,
  has_separator s = false -> has_separator (skipn n s) = false.
Proof.
  induction n as [|n IH]; intros [|c t] H; auto.
  apply IH. now apply has_separator_tail in H.
Qed.

Lemma has_escape_skipn (n : nat) : forall s,
  has_escape s = false -> has_escape (skipn n s) = false.
Proof.
  induction n as [|n IH]; intros [|c t] H; auto.
  apply IH. now apply has_escape_tail in H.
Qed.

(** With neither token present, rule 3 applies at every position. *)
Lemma spec_scan_literal (s : bytes) :
  has_separator s = false -> has_escape s = false -> spec_scan s = s.
Proof.
  induction s as [|c t IH]; [reflexivity|]. intros Hs He.
  specialize (IH (has_separator_tail _ _ Hs) (has_escape_tail _ _ He)).
  destruct t as [|d u]; [reflexivity|].
  cbn [has_separator] in Hs. apply orb_false_elim in Hs. destruct Hs as [Hs _].
  destruct u as [|e v]; [now rewrite spec_scan_two, Hs|].
  rewrite spec_scan_three, Hs, IH.
  cbn [has_escape] in He. apply orb_false_elim in He. destruct He as [He _].
  destruct (Ascii.eqb c "$"); [|reflexivity].
  cbn [andb] in He. unfold is_hex_digit, escape_value in *.
  destruct (hexValue d); [|reflexivity].
  destruct (hexValue e); [discriminate He | reflexivity].
Qed.
(** ** Where the conditions of the scan look *)

Lemma position_split (sym : bytes) (i : nat) :
  i < strlen sym ->
  exists pre c t, c_str sym = pre ++ c :: t /\ i = length pre
                  /\ strlen sym = i + S (length t).
Proof.
  intros H. unfold strlen in *.
  destruct (skipn i (c_str sym)) as [|c t] eqn:E.
  - apply (f_equal (@length ascii)) in E. rewrite length_skipn in E. simpl in E. lia.
  - exists (firstn i (c_str sym)), c, t.
    assert (L : length (firstn i (c_str sym)) = i) by (rewrite length_firstn; lia).
    assert (S : c_str sym = firstn i (c_str sym) ++ c :: t)
      by (rewrite <- E; symmetry; apply firstn_skipn).
    repeat split; auto.
    rewrite S at 1. rewrite length_app, L. reflexivity.
Qed.

Lemma separator_at_spec (sym pre : bytes) (c : ascii) (t : bytes) (i : nat) :
  c_str sym = pre ++ c :: t ->
  i = length pre ->
  separator_at sym i = Ok (Ascii.eqb c "_" && Ascii.eqb (nth 0 t NUL) "_").
Proof.
  intros E Hi. unfold separator_at.
  replace (load sym i) with (load sym (i + 0)) by (f_equal; lia).
  rewrite (load_at sym pre (c :: t) i 0 E Hi) by (simpl; lia). cbn [bind nth].
  destruct (Ascii.eqb c "_"); [|reflexivity].
  rewrite (load_at sym pre (c :: t) i 1 E Hi) by (simpl; lia). reflexivity.
Qed.

Lemma escape_at_spec (sym pre : bytes) (c : ascii) (t : bytes) (i : nat) :
  c_str sym = pre ++ c :: t ->
  i = length pre ->
  escape_at sym i
  = Ok (Ascii.eqb c "$" && (isxdigit (nth 0 t NUL) && isxdigit (nth 1 t NUL))).
Proof.
  intros E Hi. unfold escape_at.
  replace (load sym i) with (load sym (i + 0)) by (f_equal; lia).
  rewrite (load_at sym pre (c :: t) i 0 E Hi) by (simpl; lia). cbn [bind nth].
  destruct (Ascii.eqb c "$"); [|reflexivity].
  rewrite (load_at sym pre (c :: t) i 1 E Hi) by (simpl; lia). cbn [bind nth andb].
  destruct t as [|d u]; [reflexivity|]. cbn [nth].
  destruct (isxdigit d); [|reflexivity].
  rewrite (load_at sym pre (c :: d :: u) i 2 E Hi) by (simpl; lia). reflexivity.
Qed.

Lemma underscore_is_byte (t : bytes) (k : nat) :
  Ascii.eqb (nth k t NUL) "_" = true -> k < length t.
Proof.
  intros H. destruct (Nat.lt_ge_cases k (length t)) as [|G]; [assumption|].
  rewrite nth_overflow in H by assumption. discriminate H.
Qed.

Lemma xdigit_is_byte (t : bytes) (k : nat) :
  isxdigit (nth k t NUL) = true -> k < length t.
Proof.
  intros H. destruct (Nat.lt_ge_cases k (length t)) as [|G]; [assumption|].
  rewrite nth_overflow in H by assumption. discriminate H.
Qed.

Lemma scan_step_advance (sym : bytes) (i : nat) (out : bytes) :
  i < strlen sym ->
  length out <= strlen sym ->
  exists i' out', scan_step sym (strlen sym + 1) i out = Ok (i', out')
                  /\ i < i' <= strlen sym.
Proof.
  intros Hi Ho. destruct (position_split sym i Hi) as (pre & c & t & E & Hp & Hlen).
  rewrite (scan_step_spec sym pre c t _ i out E Hp) by lia.
  destruct t as [|d u]; [eexists _, _; split; [reflexivity | simpl in Hlen; lia]|].
  destruct (Ascii.eqb c "_" && Ascii.eqb d "_");
    [eexists _, _; split; [reflexivity | simpl in Hlen; lia]|].
  destruct u as [|e v]; [eexists _, _; split; [reflexivity | simpl in Hlen; lia]|].
  destruct (if Ascii.eqb c "$" then escape_value d e else None);
    eexists _, _; (split; [reflexivity | simpl in Hlen; lia]).
Qed.

(** ** The call with [int] and [malloc] explicit *)

Lemma int_of_size_fits (n : nat) :
  (Z.of_nat n <= INT_MAX)%Z -> int_of_size n = Z.of_nat n.
Proof.
  unfold int_of_size, INT_MAX, UINT_MOD. intros H.
  rewrite Z.mod_small by lia.
  destruct (Z.leb_spec (Z.of_nat n) (2 ^ 31 - 1)); [reflexivity | lia].
Qed.

Lemma int_of_size_le (n : nat) : (int_of_size n <= Z.of_nat n)%Z.
Proof.
  unfold int_of_size, INT_MAX, UINT_MOD.
  pose proof (Z.mod_le (Z.of_nat n) (2 ^ 32) ltac:(lia) ltac:(lia)).
  destruct (Z.leb_spec (Z.of_nat n mod 2 ^ 32) (2 ^ 31 - 1)); lia.
Qed.

Lemma int_of_size_wraps (n : nat) :
  (2 ^ 31 <= Z.of_nat n < 2 ^ 32)%Z -> (int_of_size n < 0)%Z.
Proof.
  unfold int_of_size, INT_MAX, UINT_MOD. intros H.
  rewrite Z.mod_small by lia.
  destruct (Z.leb_spec (Z.of_nat n) (2 ^ 31 - 1)); lia.
Qed.

Lemma leb_of_nat (n : nat) : (5 <=? Z.of_nat n)%Z = (5 <=? n).
Proof.
  destruct (Z.leb_spec 5 (Z.of_nat n)), (Nat.leb_spec 5 n); try reflexivity; lia.
Qed.

(** Below INT_MAX and with a buffer from malloc, the call is [ocamlDemangle]. *)
Lemma ocamlDemangle_call_fits (ndebug : bool) (sym : bytes) :
  (Z.of_nat (strlen sym) < INT_MAX)%Z ->
  ocamlDemangle_call ndebug true sym = ocamlDemangle ndebug sym.
Proof.
  intros H. unfold ocamlDemangle_call, ocamlDemangle, main_scan, malloc_cells.
  rewrite int_of_size_fits by lia.
  rewrite leb_of_nat, Nat2Z.id.
  replace (Z.to_nat (Z.of_nat (strlen sym) + 1)) with (strlen sym + 1) by lia.
  reflexivity.
Qed.

(** Without a buffer every turn of the loop ends in a fault. *)
Lemma scan_step_null (sym : bytes) (i : nat) (out : bytes) :
  scan_step sym 0 i out = Err OutOfBounds.
Proof.
  unfold scan_step, separator_at, escape_at, load, push, Nat.ltb.
  cbn [Nat.leb].
  repeat match goal with
         | |- context [if ?b then _ else _] => destruct b; cbn [bind]
         end; reflexivity.
Qed.

Lemma ocamlDemangle_call_null (ndebug : bool) (sym : bytes) :
  ndebug = true \/ (5 <= int_of_size (strlen sym))%Z ->
  ocamlDemangle_call ndebug false sym = Err OutOfBounds.
Proof.
  intros H. unfold ocamlDemangle_call, malloc_cells.
  assert (A : assert ndebug (5 <=? int_of_size (strlen sym))%Z = Ok tt).
  { unfold assert. destruct H as [-> | H]; [reflexivity|].
    destruct (Z.leb_spec 5 (int_of_size (strlen sym))); [|lia].
    now rewrite orb_true_r. }
  rewrite A. cbn [bind].
  destruct (Nat.le_gt_cases (Z.to_nat (int_of_size (strlen sym))) 4) as [Hs|Hl].
  - rewrite scan_loop_done by assumption. reflexivity.
  - pose proof (int_of_size_le (strlen sym)).
    destruct (strlen sym) as [|fuel] eqn:E; [lia|].
    rewrite scan_loop_S.
    destruct (Nat.leb_spec (Z.to_nat (int_of_size (S fuel))) 4); [lia|].
    now rewrite scan_step_null.
Qed.

Lemma ocamlDemangle_call_short (malloc_ok : bool) (sym : bytes) :
  strlen sym <= 4 ->
  ocamlDemangle_call false malloc_ok sym = Err AssertionFailed.
Proof.
  intros H. unfold ocamlDemangle_call, assert.
  rewrite int_of_size_fits by (unfold INT_MAX; lia).
  rewrite leb_of_nat. destruct (Nat.leb_spec 5 (strlen sym)); [lia | reflexivity].
Qed.

Lemma ocamlDemangle_ndebug_short (sym : bytes) :
  strlen sym <= 4 -> ocamlDemangle true sym = Ok [].
Proof.
  intros H. unfold ocamlDemangle, assert. cbn [orb bind].
  rewrite main_scan_spec, skipn_all2 by (unfold strlen in H; lia).
  cbn [spec_scan bind]. rewrite finish_keep; [reflexivity | simpl; lia | reflexivity].
Qed.

Lemma ocamlDemangle_returns (ndebug : bool) (sym : bytes) :
  5 <= strlen sym -> exists res, ocamlDemangle ndebug sym = Ok res.
Proof.
  intros H. rewrite ocamlDemangle_run by assumption.
  destruct (finish_length (strlen sym + 1) _ (scan_fits sym)) as (res & -> & _).
  now exists res.
Qed.

(** * The claims *)

(** C1.  On every input of length at least 5 the main scan reads the input
    left to right from index 4 and applies, at each position, the first
    rule that matches: two underscores give a dot and consume 2 bytes;
    otherwise a dollar and two hex digits give the byte they spell and
    consume 3; otherwise the byte is copied and 1 byte is consumed.  So an
    underscore that is not followed by another is copied, and so is a
    dollar that is not followed by two hex digits, the bytes after it being
    scanned in their turn.  [decode "caml__"] is ["."] and
    [decode "caml$gg"] is ["$gg"]. *)
Theorem main_scan_rule_precedence (ndebug : bool) (sym : bytes)
  (H5 : 5 <= strlen sym) :
  main_scan sym = Ok (spec_scan (skipn 4 (c_str sym)))
  /\ ocamlDemangle ndebug sym
     = finish (strlen sym + 1) (spec_scan (skipn 4 (c_str sym)))
  /\ (forall t, spec_scan ("_" :: "_" :: t) = "." :: spec_scan t)
  /\ (forall d e b t, escape_value d e = Some b ->
        spec_scan ("$" :: d :: e :: t) = b :: spec_scan t)
  /\ (forall t, hd NUL t <> "_" -> spec_scan ("_" :: t) = "_" :: spec_scan t)
  /\ (forall t, match t with d :: e :: _ => escape_value d e | _ => None end = None ->
        spec_scan ("$" :: t) = "$" :: spec_scan t)
  /\ (forall c t, c <> "_" -> c <> "$" -> spec_scan (c :: t) = c :: spec_scan t)
  /\ decode "caml__" = Ok (str ".")
  /\ decode "caml$gg" = Ok (str "$gg").
Proof.
  split; [apply main_scan_spec|].
  split; [now apply ocamlDemangle_run|].
  split; [intros [|e v]; reflexivity|].
  split.
  { intros d e b t Hb. rewrite spec_scan_three. cbn. now rewrite Hb. }
  split.
  { intros [|d [|e v]] Hd; [reflexivity| |].
    - rewrite spec_scan_two. simpl in Hd. apply Ascii.eqb_neq in Hd.
      now rewrite Hd.
    - rewrite spec_scan_three. simpl in Hd. apply Ascii.eqb_neq in Hd.
      now rewrite Hd. }
  split.
  { intros [|d [|e v]] Hn; [reflexivity..|].
    rewrite spec_scan_three. cbn. now rewrite Hn. }
  split.
  { intros c t Hu Hd. apply Ascii.eqb_neq in Hu, Hd.
    destruct t as [|d [|e v]]; [reflexivity| |].
    - now rewrite spec_scan_two, Hu.
    - now rewrite spec_scan_three, Hu, Hd. }
  split; reflexivity.
Qed.

Lemma main_scan_rule_precedence_witness :
  5 <= strlen (str "caml$gg_$4a__x")
  /\ main_scan (str "caml$gg_$4a__x") = Ok (str "$gg_J.x").
Proof.
  assert (H : 5 <= strlen (str "caml$gg_$4a__x")) by (vm_compute; lia).
  split; [exact H|].
  exact (proj1 (main_scan_rule_precedence false (str "caml$gg_$4a__x") H)).
Defined.

(** C2.  After the main scan, the trim cuts the output exactly when the
    output is not empty, ends in a decimal digit, and the byte before its
    trailing decimal digits is an underscore ([has_numeric_suffix]); it
    then drops that underscore and all that follows.  Otherwise (another
    byte before the digits, or digits only) the output stays as it is.
    [out] is the buffer the scan has filled and the result the string the
    caller reads from it, which is the buffer's content when that holds no
    NUL.  [decode "camlFoo__Bar_42"] is ["Foo.Bar"],
    [decode "camlFoo_42"] is ["Foo"], [decode "camlFoo42"] is ["Foo42"]. *)
Theorem suffix_trim_exactly_when (cap : nat) (out : bytes)
  (Hcap : length out < cap) :
  (has_numeric_suffix out = true <->
     exists p ds, out = p ++ "_" :: ds /\ ds <> [] /\ forallb isdigit ds = true)
  /\ (forall p ds, out = p ++ "_" :: ds -> ds <> [] -> forallb isdigit ds = true ->
        finish cap out = Ok (c_str p) /\ (no_nul out = true -> c_str p = p))
  /\ (has_numeric_suffix out = false ->
        finish cap out = Ok (c_str out) /\ (no_nul out = true -> c_str out = out))
  /\ decode "camlFoo__Bar_42" = Ok (str "Foo.Bar")
  /\ decode "camlFoo_42" = Ok (str "Foo")
  /\ decode "camlFoo42" = Ok (str "Foo42").
Proof.
  split.
  { split; [apply has_numeric_suffix_elim|].
    intros (p & ds & -> & Hne & Hds). now apply has_numeric_suffix_intro. }
  split.
  { intros p ds -> Hne Hds. split; [now apply finish_cut|].
    apply c_str_prefix_fixed. }
  split.
  { intros Hs. split; [now apply finish_keep | apply c_str_fixed]. }
  repeat split.
Qed.

Lemma suffix_trim_exactly_when_witness :
  length (str "Foo42") < 6
  /\ has_numeric_suffix (str "Foo42") = false
  /\ finish 6 (str "Foo42") = Ok (str "Foo42").
Proof.
  assert (H : length (str "Foo42") < 6) by (vm_compute; lia).
  split; [exact H|]. split; [reflexivity|].
  exact (proj1 (proj1 (proj2 (proj2 (suffix_trim_exactly_when 6 (str "Foo42") H))) eq_refl)).
Defined.

(** C3.  On every input of length at least 5 the main scan reads no byte
    past the end of the string: no load goes beyond the terminator, which
    is the last byte of the string object (the scan ends in [Ok], and a
    load is [OutOfBounds] exactly past index [strlen]).  The separator rule
    matches at [i] only when the bytes at [i] and [i + 1] are bytes of the
    input, the escape rule only when those at [i + 1] and [i + 2] are, and
    a turn of the loop leaves the position within the input. *)
Theorem scan_reads_in_bounds (sym : bytes) (H5 : 5 <= strlen sym) :
  (forall k, strlen sym < k <-> load sym k = Err OutOfBounds)
  /\ load sym (strlen sym) = Ok NUL
  /\ (exists out, main_scan sym = Ok out)
  /\ forall i, i < strlen sym ->
       (exists b, separator_at sym i = Ok b /\ (b = true -> i + 1 < strlen sym))
       /\ (exists b, escape_at sym i = Ok b /\ (b = true -> i + 2 < strlen sym))
       /\ (forall out, length out <= strlen sym ->
             exists i' out', scan_step sym (strlen sym + 1) i out = Ok (i', out')
                             /\ i < i' <= strlen sym).
Proof.
  split; [apply load_out_of_bounds|].
  split; [apply load_terminator|].
  split; [eexists; apply main_scan_spec|].
  intros i Hi.
  destruct (position_split sym i Hi) as (pre & c & t & E & Hp & Hlen).
  split; [|split].
  - eexists. split; [apply (separator_at_spec sym pre c t i E Hp)|].
    intros H. apply andb_prop in H. destruct H as [_ H].
    apply underscore_is_byte in H. lia.
  - eexists. split; [apply (escape_at_spec sym pre c t i E Hp)|].
    intros H. apply andb_prop in H. destruct H as [_ H].
    apply andb_prop in H. destruct H as [_ H].
    apply xdigit_is_byte in H. lia.
  - intros out Ho. now apply scan_step_advance.
Qed.

Lemma scan_reads_in_bounds_witness :
  5 <= strlen (str "caml_$4") /\ exists out, main_scan (str "caml_$4") = Ok out.
Proof.
  assert (H : 5 <= strlen (str "caml_$4")) by (vm_compute; lia).
  split; [exact H|].
  exact (proj1 (proj2 (proj2 (scan_reads_in_bounds (str "caml_$4") H)))).
Defined.

(** C4, as the code has it.  ["caml"] has length 4: with assertions on,
    [assert(len >= 5)] aborts and nothing is decoded.  Only in a build with
    NDEBUG does the call go on: the loop then makes no turn, the output is
    empty and the trim leaves it alone. *)
Theorem decode_caml_boundary :
  strlen (str "caml") = 4
  /\ ocamlDemangle false (str "caml") = Err AssertionFailed
  /\ ocamlDemangle true (str "caml") = Ok []
  /\ main_scan (str "caml") = Ok []
  /\ suffix_trim [NUL] 0 = Ok [NUL].
Proof. repeat split. Qed.

(** C4 as stated does not hold: decoding ["caml"] gives no output. *)
Lemma decode_caml_no_output : decode "caml" <> Ok [].
Proof. discriminate. Qed.

(** C5, as the code has it.  For every byte value [b] from 1 to 255 and
    every spelling [d], [e] of it in hex digits of either case, high nibble
    first, decoding ["caml$"] followed by [d] and [e] gives the one byte
    [b].  The byte 0 is the terminator of the returned C string, so
    ["caml$00"] decodes to the empty string. *)
Theorem escape_round_trip (ndebug : bool) (b : nat) (d e : ascii) (h l : nat)
  (Hd : hexValue d = Some h) (He : hexValue e = Some l)
  (Hb : b = 16 * h + l) (Hnz : b <> 0) :
  b <= 255
  /\ ocamlDemangle ndebug (str "caml$" ++ [d; e]) = Ok [ascii_of_nat b]
  /\ ocamlDemangle ndebug (str "caml$00") = Ok [].
Proof.
  destruct (hex_hexValue _ _ Hd) as [_ Hh].
  destruct (hex_hexValue _ _ He) as [_ Hl].
  split; [lia|]. split; [|destruct ndebug; reflexivity].
  assert (Hv : escape_value d e = Some (ascii_of_nat b))
    by (unfold escape_value; now rewrite Hd, He, Hb).
  assert (Nd : is_nul d = false) by (revert Hd; clear; each_char d; cbn; congruence).
  assert (Ne : is_nul e = false) by (revert He; clear; each_char e; cbn; congruence).
  assert (Nb : is_nul (ascii_of_nat b) = false).
  { subst b. clear - Hh Hl Hnz.
    do 16 (destruct h as [|h]; [ do 16 (destruct l as [|l]; [first [reflexivity | lia]|]); lia |]).
    lia. }
  assert (Hc : c_str (str "caml$" ++ [d; e]) = str "caml$" ++ [d; e])
    by (cbn; now rewrite Nd, Ne).
  assert (Hlen : strlen (str "caml$" ++ [d; e]) = 7)
    by (unfold strlen; now rewrite Hc).
  rewrite ocamlDemangle_run by lia. rewrite Hc, Hlen.
  change (skipn 4 (str "caml$" ++ [d; e])) with ["$"; d; e].
  rewrite spec_scan_three. cbn [Ascii.eqb Bool.eqb andb]. rewrite Hv.
  rewrite finish_keep; [| simpl; lia | apply andb_false_r].
  cbn [c_str]. now rewrite Nb.
Qed.

Lemma escape_round_trip_witness :
  hexValue "4" = Some 4 /\ hexValue "a" = Some 10
  /\ ocamlDemangle false (str "caml$4a") = Ok ["J"].
Proof.
  split; [reflexivity|]. split; [reflexivity|].
  refine (proj1 (proj2 (escape_round_trip false 74 "4" "a" 4 10 eq_refl eq_refl eq_refl _))).
  discriminate.
Defined.

(** C5 as stated fails at [b = 0]: ["00"] spells 0, and ["caml$00"]
    decodes to the empty string, not to the one byte 0. *)
Lemma escape_nul_counterexample :
  escape_value "0" "0" = Some (ascii_of_nat 0)
  /\ decode "caml$00" = Ok []
  /\ decode "caml$00" <> Ok [ascii_of_nat 0].
Proof. repeat split. discriminate. Qed.

(** C6.  On every input of length at least 5 the decoded output, after the
    scan and the trim, is at most the input length less 4; so is what the
    scan alone writes. *)
Theorem output_length_bound (ndebug : bool) (sym : bytes) (H5 : 5 <= strlen sym) :
  (exists out, main_scan sym = Ok out /\ length out <= strlen sym - 4)
  /\ (exists res, ocamlDemangle ndebug sym = Ok res
                  /\ length res <= strlen sym - 4).
Proof.
  split.
  - eexists. split; [apply main_scan_spec | apply scan_short].
  - rewrite ocamlDemangle_run by assumption.
    destruct (finish_length (strlen sym + 1) _ (scan_fits sym)) as (res & -> & Hres).
    exists res. split; [reflexivity|]. pose proof (scan_short sym). lia.
Qed.

Lemma output_length_bound_witness :
  5 <= strlen (str "camlFoo__Bar_42")
  /\ exists res, ocamlDemangle false (str "camlFoo__Bar_42") = Ok res
                 /\ length res <= strlen (str "camlFoo__Bar_42") - 4.
Proof.
  assert (H : 5 <= strlen (str "camlFoo__Bar_42")) by (vm_compute; lia).
  split; [exact H|].
  exact (proj2 (output_length_bound false (str "camlFoo__Bar_42") H)).
Defined.

(** C7, as the code has it.  With assertions on, every input of length 4
    or less stops at [assert(len >= 5)] and decodes nothing; compiled with
    NDEBUG the check is gone and such an input comes back as the empty
    string.  For inputs shorter than INT_MAX bytes and with a buffer from
    [malloc], the failed assertion is the only failure: every input of
    length at least 5 returns a string in either build, and there the
    call is [ocamlDemangle]. *)
Theorem length_check_by_build (sym : bytes) :
  (strlen sym <= 4 ->
     (forall malloc_ok, ocamlDemangle_call false malloc_ok sym = Err AssertionFailed)
     /\ ocamlDemangle_call true true sym = Ok [])
  /\ (5 <= strlen sym -> (Z.of_nat (strlen sym) < INT_MAX)%Z ->
        forall ndebug, exists res, ocamlDemangle_call ndebug true sym = Ok res)
  /\ ((Z.of_nat (strlen sym) < INT_MAX)%Z ->
        forall ndebug err, ocamlDemangle_call ndebug true sym = Err err ->
          ndebug = false /\ err = AssertionFailed /\ strlen sym <= 4)
  /\ ((Z.of_nat (strlen sym) < INT_MAX)%Z ->
        forall ndebug, ocamlDemangle_call ndebug true sym = ocamlDemangle ndebug sym).
Proof.
  split; [|split; [|split]].
  - intros H. split; [intros m; now apply ocamlDemangle_call_short|].
    rewrite ocamlDemangle_call_fits by (unfold INT_MAX; lia).
    now apply ocamlDemangle_ndebug_short.
  - intros H5 Hint ndebug. rewrite ocamlDemangle_call_fits by assumption.
    now apply ocamlDemangle_returns.
  - intros Hint ndebug err. rewrite ocamlDemangle_call_fits by assumption.
    intros He. destruct (Nat.le_gt_cases (strlen sym) 4) as [Hs|Hl].
    + destruct ndebug.
      * rewrite ocamlDemangle_ndebug_short in He by assumption. discriminate He.
      * rewrite <- (ocamlDemangle_call_fits false sym Hint) in He.
        rewrite ocamlDemangle_call_short in He by assumption.
        injection He as <-. auto.
    + destruct (ocamlDemangle_returns ndebug sym Hl) as (res & Hres). congruence.
  - intros Hint ndebug. now apply ocamlDemangle_call_fits.
Qed.

Lemma length_check_by_build_witness :
  strlen (str "caml") <= 4
  /\ ocamlDemangle_call false true (str "caml") = Err AssertionFailed
  /\ 5 <= strlen (str "camlX")
  /\ (Z.of_nat (strlen (str "camlX")) < INT_MAX)%Z
  /\ exists res, ocamlDemangle_call false true (str "camlX") = Ok res.
Proof.
  assert (H4 : strlen (str "caml") <= 4) by (vm_compute; lia).
  assert (H5 : 5 <= strlen (str "camlX")) by (vm_compute; lia).
  assert (Hi : (Z.of_nat (strlen (str "camlX")) < INT_MAX)%Z) by (vm_compute; reflexivity).
  split; [exact H4|].
  split; [exact (proj1 (proj1 (length_check_by_build (str "caml")) H4) true)|].
  split; [exact H5|]. split; [exact Hi|].
  exact (proj1 (proj2 (length_check_by_build (str "camlX"))) H5 Hi false).
Defined.

(** C7 as stated does not hold: compiled with NDEBUG, an input of length 3
    fails no check and returns the empty string. *)
Lemma ndebug_short_input_returns :
  strlen (str "cam") <= 4
  /\ ocamlDemangle true (str "cam") = Ok []
  /\ ocamlDemangle_call true true (str "cam") = Ok [].
Proof. split; [vm_compute; lia | split; reflexivity]. Qed.

(** C8.  On every input of length at least 5 that holds no pair of
    underscores and no dollar followed by two hex digits, and whose part
    after the tag does not end in an underscore followed by decimal digits,
    the result is the input without its first 4 bytes. *)
Theorem literal_pass_through (ndebug : bool) (sym : bytes)
  (H5 : 5 <= strlen sym)
  (Hsep : has_separator (c_str sym) = false)
  (Hesc : has_escape (c_str sym) = false)
  (Hsuf : has_numeric_suffix (skipn 4 (c_str sym)) = false) :
  ocamlDemangle ndebug sym = Ok (skipn 4 (c_str sym)).
Proof.
  rewrite ocamlDemangle_run by assumption.
  pose proof (scan_fits sym) as Hfit.
  rewrite spec_scan_literal in *
    by (apply has_separator_skipn || apply has_escape_skipn; assumption).
  rewrite finish_keep by assumption.
  f_equal. apply c_str_fixed. unfold no_nul. apply forallb_skipn, c_str_no_nul.
Qed.

Lemma literal_pass_through_witness :
  5 <= strlen (str "camlFoo_$4_bar42")
  /\ ocamlDemangle false (str "camlFoo_$4_bar42") = Ok (str "Foo_$4_bar42").
Proof.
  assert (H : 5 <= strlen (str "camlFoo_$4_bar42")) by (vm_compute; lia).
  split; [exact H|].
  exact (literal_pass_through false (str "camlFoo_$4_bar42") H eq_refl eq_refl eq_refl).
Defined.

(** C9.  The trim can remove the whole output: whenever the main scan
    leaves one underscore followed by one or more decimal digits and
    nothing else, as for ["caml_42"], the result is the empty string,
    although the input has bytes after its tag.  (An underscore with no
    digit after it is kept: [decode "caml_"] is ["_"].) *)
Theorem trim_can_empty_output (ndebug : bool) (sym ds : bytes)
  (Hscan : main_scan sym = Ok ("_" :: ds))
  (Hne : ds <> [])
  (Hds : forallb isdigit ds = true) :
  ocamlDemangle ndebug sym = Ok []
  /\ 4 < strlen sym
  /\ decode "caml_" = Ok (str "_").
Proof.
  split; [exact (ocamlDemangle_cut ndebug sym [] ds Hscan Hne Hds)|].
  split; [|reflexivity].
  rewrite main_scan_spec in Hscan.
  assert (E : spec_scan (skipn 4 (c_str sym)) = "_" :: ds) by congruence.
  pose proof (scan_short sym) as Hlen. rewrite E in Hlen. simpl in Hlen. lia.
Qed.

Lemma trim_can_empty_output_witness :
  main_scan (str "caml_42") = Ok ("_" :: str "42")
  /\ ocamlDemangle false (str "caml_42") = Ok [].
Proof.
  split; [reflexivity|].
  refine (proj1 (trim_can_empty_output false (str "caml_42") (str "42") eq_refl _ eq_refl)).
  discriminate.
Defined.

(** C10.  The trim runs once and removes the last underscore-and-digits
    run only: what is in front of it is returned whatever it ends in, so
    the result may itself end in an underscore and digits.
    [decode "camlFoo_1_2"] is ["Foo_1"], not ["Foo"]. *)
Theorem trim_runs_once (ndebug : bool) (sym p ds : bytes)
  (Hscan : main_scan sym = Ok (p ++ "_" :: ds))
  (Hne : ds <> [])
  (Hds : forallb isdigit ds = true) :
  ocamlDemangle ndebug sym = Ok (c_str p)
  /\ decode "camlFoo_1_2" = Ok (str "Foo_1")
  /\ has_numeric_suffix (str "Foo_1") = true
  /\ decode "camlFoo_1_2" <> Ok (str "Foo").
Proof.
  split; [exact (ocamlDemangle_cut ndebug sym p ds Hscan Hne Hds)|].
  repeat split. discriminate.
Qed.

Lemma trim_runs_once_witness :
  main_scan (str "camlFoo_1_2") = Ok (str "Foo_1" ++ "_" :: str "2")
  /\ ocamlDemangle false (str "camlFoo_1_2") = Ok (str "Foo_1").
Proof.
  split; [reflexivity|].
  refine (proj1 (trim_runs_once false (str "camlFoo_1_2") (str "Foo_1") (str "2") eq_refl _ eq_refl)).
  discriminate.
Defined.

(** * Further properties of the decoder *)

(** ** Copied bytes and joined components *)


Lemma spec_scan_copy (c : ascii) (t : bytes) :
  Ascii.eqb c "_" = false -> Ascii.eqb c "$" = false ->
  spec_scan (c :: t) = c :: spec_scan t.
Proof.
  intros Hu Hd. destruct t as [|d [|e v]]; [reflexivity| |].
  - now rewrite spec_scan_two, Hu.
  - now rewrite spec_scan_three, Hu, Hd.
Qed.

Lemma plain_inv (c : ascii) :
  plain c = true ->
  Ascii.eqb c "_" = false /\ Ascii.eqb c "$" = false /\ is_nul c = false.
Proof.
  unfold plain. intros H. apply andb_prop in H. destruct H as [H H3].
  apply andb_prop in H. destruct H as [H1 H2].
  now rewrite negb_true_iff in H1, H2, H3.
Qed.

Lemma spec_scan_plain_app (a b : bytes) :
  forallb plain a = true -> spec_scan (a ++ b) = a ++ spec_scan b.
Proof.
  induction a as [|c a IH]; [reflexivity|]. simpl forallb. intros H.
  apply andb_prop in H. destruct H as [Hc Ha].
  destruct (plain_inv c Hc) as (Hu & Hd & _).
  rewrite <- app_comm_cons, spec_scan_copy by assumption.
  now rewrite IH.
Qed.

Lemma plain_no_nul (a : bytes) : forallb plain a = true -> no_nul a = true.
Proof.
  unfold no_nul. induction a as [|c a IH]; [reflexivity|]. simpl. intros H.
  apply andb_prop in H. destruct H as [Hc Ha].
  destruct (plain_inv c Hc) as (_ & _ & ->). now rewrite IH.
Qed.

Lemma digit_plain (c : ascii) : isdigit c = true -> plain c = true.
Proof. each_char c; intros H; try discriminate H; reflexivity. Qed.

Lemma digits_plain (ds : bytes) : forallb isdigit ds = true -> forallb plain ds = true.
Proof.
  induction ds as [|c ds IH]; [reflexivity|]. simpl. intros H.
  apply andb_prop in H. destruct H as [Hc Hds].
  now rewrite digit_plain, IH.
Qed.

Lemma no_nul_app (a b : bytes) : no_nul (a ++ b) = no_nul a && no_nul b.
Proof. apply forallb_app. Qed.

(** The string object of a tag of four bytes followed by [body]. *)
Lemma tagged_c_str (tag body : bytes) :
  length tag = 4 -> no_nul tag = true -> no_nul body = true ->
  c_str (tag ++ body) = tag ++ body
  /\ strlen (tag ++ body) = 4 + length body
  /\ skipn 4 (c_str (tag ++ body)) = body.
Proof.
  intros Ht Nt Nb.
  assert (E : c_str (tag ++ body) = tag ++ body)
    by (apply c_str_fixed; now rewrite no_nul_app, Nt, Nb).
  split; [exact E|]. split.
  - unfold strlen. rewrite E, length_app. lia.
  - rewrite E, skipn_app, skipn_all2 by lia. rewrite Ht. reflexivity.
Qed.

Lemma spec_scan_underscore_digits (ds : bytes) :
  ds <> [] -> forallb isdigit ds = true ->
  spec_scan ("_" :: ds) = "_" :: ds.
Proof.
  intros Hne Hds. pose proof (digits_plain ds Hds) as Hp.
  assert (Hs : spec_scan ds = ds).
  { rewrite <- (app_nil_r ds) at 1. rewrite spec_scan_plain_app by assumption.
    simpl. apply app_nil_r. }
  destruct ds as [|d ds]; [congruence|].
  simpl in Hp. apply andb_prop in Hp. destruct Hp as [Hd _].
  destruct (plain_inv d Hd) as (Hu & _ & _).
  destruct ds as [|e v].
  - rewrite spec_scan_two. now rewrite Hu.
  - rewrite spec_scan_three. rewrite Hu. cbn [andb Ascii.eqb Bool.eqb].
    now rewrite Hs.
Qed.


Lemma spec_scan_separator (t : bytes) :
  spec_scan ("_" :: "_" :: t) = "." :: spec_scan t.
Proof. destruct t; reflexivity. Qed.

Lemma spec_scan_escape (d e b : ascii) (t : bytes) :
  escape_value d e = Some b -> spec_scan ("$" :: d :: e :: t) = b :: spec_scan t.
Proof. intros H. rewrite spec_scan_three. cbn. now rewrite H. Qed.

Lemma spec_scan_plain (a : bytes) : forallb plain a = true -> spec_scan a = a.
Proof.
  intros H. rewrite <- (app_nil_r a) at 1.
  rewrite spec_scan_plain_app by assumption. apply app_nil_r.
Qed.

(** The call on a tag of four bytes followed by a body that is not empty. *)
Lemma demangle_tagged (ndebug : bool) (tag body : bytes) :
  length tag = 4 -> no_nul tag = true -> no_nul body = true -> body <> [] ->
  ocamlDemangle ndebug (tag ++ body)
  = finish (4 + length body + 1) (spec_scan body)
  /\ length (spec_scan body) < 4 + length body + 1.
Proof.
  intros Ht Nt Nb Hne.
  destruct (tagged_c_str tag body Ht Nt Nb) as (_ & Hlen & Hskip).
  split.
  - rewrite ocamlDemangle_run;
      [ now rewrite Hskip, Hlen
      | rewrite Hlen; destruct body; [congruence | simpl; lia] ].
  - pose proof (spec_scan_length body). lia.
Qed.

Lemma plain_no_suffix (l : bytes) :
  forallb (fun c => negb (Ascii.eqb c "_")) l = true ->
  has_numeric_suffix l = false.
Proof.
  intros H. destruct (has_numeric_suffix l) eqn:E; [|reflexivity].
  destruct (has_numeric_suffix_elim l E) as (p & ds & -> & _ & _).
  rewrite forallb_app in H. apply andb_prop in H. destruct H as [_ H].
  simpl in H. discriminate H.
Qed.

Lemma plain_no_underscore (a : bytes) :
  forallb plain a = true -> forallb (fun c => negb (Ascii.eqb c "_")) a = true.
Proof.
  induction a as [|c a IH]; [reflexivity|]. simpl. intros H.
  apply andb_prop in H. destruct H as [Hc Ha].
  destruct (plain_inv c Hc) as (-> & _ & _). now rewrite IH.
Qed.


Lemma spec_scan_join (parts : list bytes) (t : bytes) :
  all_plain parts = true ->
  spec_scan (join (str "__") parts ++ t) = join (str ".") parts ++ spec_scan t.
Proof.
  unfold all_plain.
  induction parts as [|p rest IH]; [reflexivity|]. simpl forallb. intros H.
  apply andb_prop in H. destruct H as [Hp Hrest].
  destruct rest as [|q rest].
  - now apply spec_scan_plain_app.
  - change (join (str "__") (p :: q :: rest))
      with (p ++ "_" :: "_" :: join (str "__") (q :: rest)).
    change (join (str ".") (p :: q :: rest))
      with (p ++ "." :: join (str ".") (q :: rest)).
    rewrite <- !app_assoc, <- !app_comm_cons.
    rewrite spec_scan_plain_app, spec_scan_separator by assumption.
    now rewrite IH.
Qed.

Lemma spec_scan_join_all (parts : list bytes) :
  all_plain parts = true ->
  spec_scan (join (str "__") parts) = join (str ".") parts.
Proof.
  intros H. rewrite <- (app_nil_r (join (str "__") parts)).
  rewrite spec_scan_join by assumption. apply app_nil_r.
Qed.

Lemma join_forallb (f : ascii -> bool) (sep : bytes) (parts : list bytes) :
  forallb f sep = true -> forallb (forallb f) parts = true ->
  forallb f (join sep parts) = true.
Proof.
  intros Hsep. induction parts as [|p rest IH]; [reflexivity|]. simpl forallb.
  intros H. apply andb_prop in H. destruct H as [Hp Hrest].
  destruct rest as [|q rest]; [exact Hp|].
  change (join sep (p :: q :: rest)) with (p ++ sep ++ join sep (q :: rest)).
  now rewrite !forallb_app, Hp, Hsep, IH.
Qed.

Lemma forallb_imp {A} (f g : A -> bool) (l : list A) :
  (forall a, f a = true -> g a = true) -> forallb f l = true -> forallb g l = true.
Proof.
  intros Hfg. induction l as [|a l IH]; [reflexivity|]. simpl. intros H.
  apply andb_prop in H. destruct H as [Ha Hl]. now rewrite Hfg, IH.
Qed.

Lemma all_plain_no_nul (sep : bytes) (parts : list bytes) :
  no_nul sep = true -> all_plain parts = true -> no_nul (join sep parts) = true.
Proof.
  intros Hsep H. apply join_forallb; [exact Hsep|].
  revert H. apply forallb_imp. intros p. apply plain_no_nul.
Qed.

Lemma all_plain_no_underscore (parts : list bytes) :
  all_plain parts = true ->
  forallb (fun c => negb (Ascii.eqb c "_")) (join (str ".") parts) = true.
Proof.
  intros H. apply join_forallb; [reflexivity|].
  revert H. apply forallb_imp. intros p. apply plain_no_underscore.
Qed.

(** X1.  The names the OCaml compiler produces: components free of ['_']
    and ['$'] joined by ["__"] after the tag come back joined by dots, and
    a final underscore with decimal digits after them is dropped. *)
Theorem module_path_demangles (ndebug : bool) (tag : bytes)
  (parts : list bytes) (ds : bytes)
  (Htag : length tag = 4) (Ntag : no_nul tag = true)
  (Hparts : all_plain parts = true)
  (Hbody : join (str "__") parts <> [])
  (Hne : ds <> []) (Hds : forallb isdigit ds = true) :
  ocamlDemangle ndebug (tag ++ join (str "__") parts)
  = Ok (join (str ".") parts)
  /\ ocamlDemangle ndebug (tag ++ join (str "__") parts ++ "_" :: ds)
     = Ok (join (str ".") parts).
Proof.
  pose proof (all_plain_no_nul (str "__") parts eq_refl Hparts) as Nb.
  pose proof (all_plain_no_nul (str ".") parts eq_refl Hparts) as Nr.
  pose proof (plain_no_nul ds (digits_plain ds Hds)) as Nd.
  split.
  - destruct (demangle_tagged ndebug tag _ Htag Ntag Nb Hbody) as [-> Hfit].
    rewrite spec_scan_join_all in * by assumption.
    rewrite finish_keep; [now rewrite c_str_fixed | exact Hfit |].
    now apply plain_no_suffix, all_plain_no_underscore.
  - destruct (demangle_tagged ndebug tag (join (str "__") parts ++ "_" :: ds) Htag Ntag)
      as [-> Hfit].
    + rewrite no_nul_app, Nb. exact Nd.
    + destruct (join (str "__") parts); discriminate.
    + rewrite spec_scan_join, spec_scan_underscore_digits in * by assumption.
      rewrite finish_cut by assumption. now rewrite c_str_fixed.
Qed.

Lemma module_path_demangles_witness :
  ocamlDemangle false (str "camlStdlib__List__map_1234") = Ok (str "Stdlib.List.map").
Proof.
  refine (proj2 (module_path_demangles false (str "caml")
                   [str "Stdlib"; str "List"; str "map"] (str "1234")
                   eq_refl eq_refl eq_refl _ _ eq_refl)); discriminate.
Defined.

(** ** [hex], the assertion and the tag *)

Lemma xdigit_value (c : ascii) :
  isxdigit c = true -> exists v, hexValue c = Some v.
Proof.
  rewrite isxdigit_hexValue. unfold is_hex_digit.
  destruct (hexValue c) as [v|]; [now exists v | discriminate].
Qed.

Lemma hex_digit_not_nul (c : ascii) (v : nat) : hexValue c = Some v -> is_nul c = false.
Proof. each_char c; intros H; vm_compute in H; try discriminate H; reflexivity. Qed.

Lemma escape_value_inv (d e b : ascii) :
  escape_value d e = Some b -> is_nul d = false /\ is_nul e = false.
Proof.
  unfold escape_value.
  destruct (hexValue d) eqn:Hd; [|discriminate].
  destruct (hexValue e) eqn:He; [|discriminate].
  intros _. eauto using hex_digit_not_nul.
Qed.

(** X2.  On every byte that [isxdigit] accepts, [hex] returns the value of
    the digit, between 0 and 15: the byte less ['0'] for a decimal digit,
    and the same value for an uppercase letter as for its lowercase
    form. *)
Theorem hex_of_digit (c : ascii) (Hc : isxdigit c = true) :
  (0 <= hex c < 16)%Z
  /\ hexValue c = Some (Z.to_nat (hex c))
  /\ (isdigit c = true -> hex c = (code c - code "0")%Z)
  /\ (in_range "A" "F" c = true -> hex (char_of_Z (code c + 32)) = hex c).
Proof.
  destruct (xdigit_value c Hc) as (v & Hv).
  destruct (hex_hexValue c v Hv) as (Hh & Hlt).
  split; [rewrite Hh; lia|].
  split; [now rewrite Hh, Nat2Z.id|].
  split.
  - clear. each_char c; intros H; try discriminate H; reflexivity.
  - clear. each_char c; intros H; try discriminate H; reflexivity.
Qed.

Lemma hex_of_digit_witness :
  isxdigit "E" = true /\ hex "E" = 14%Z /\ hex "e" = 14%Z.
Proof.
  split; [reflexivity|].
  pose proof (hex_of_digit "E" eq_refl) as (_ & _ & _ & H).
  split; [reflexivity | exact (H eq_refl)].
Defined.

(** X3.  Compiled with NDEBUG, and with a buffer from [malloc]: an input
    shorter than 5 bytes makes the loop condition false at once and comes
    back as the empty string; an input of length at least 5 and below
    INT_MAX bytes returns what the build with assertions returns. *)
Theorem ndebug_build (sym : bytes) :
  (strlen sym <= 4 -> ocamlDemangle_call true true sym = Ok [])
  /\ (5 <= strlen sym -> (Z.of_nat (strlen sym) < INT_MAX)%Z ->
        ocamlDemangle_call true true sym = ocamlDemangle_call false true sym
        /\ exists res, ocamlDemangle_call true true sym = Ok res).
Proof.
  split.
  - intros H. rewrite ocamlDemangle_call_fits by (unfold INT_MAX; lia).
    now apply ocamlDemangle_ndebug_short.
  - intros H5 Hint. rewrite !ocamlDemangle_call_fits by assumption.
    split; [now rewrite !ocamlDemangle_run | now apply ocamlDemangle_returns].
Qed.

Lemma ndebug_build_witness :
  strlen (str "ab") <= 4 /\ ocamlDemangle_call true true (str "ab") = Ok [].
Proof.
  assert (H : strlen (str "ab") <= 4) by (vm_compute; lia).
  split; [exact H|]. exact (proj1 (ndebug_build (str "ab")) H).
Defined.

(** X4.  The first four bytes are skipped unread: two inputs of length at
    least 5 that agree from index 4 on have the same result. *)
Theorem tag_is_not_inspected (ndebug : bool) (sym sym' : bytes)
  (H5 : 5 <= strlen sym) (H5' : 5 <= strlen sym')
  (Hbody : skipn 4 (c_str sym) = skipn 4 (c_str sym')) :
  ocamlDemangle ndebug sym = ocamlDemangle ndebug sym'.
Proof.
  rewrite !ocamlDemangle_run by assumption. rewrite Hbody.
  f_equal. f_equal.
  apply (f_equal (@length ascii)) in Hbody. rewrite !length_skipn in Hbody.
  unfold strlen in *. lia.
Qed.

Lemma tag_is_not_inspected_witness :
  ocamlDemangle false (str "XYZ_Foo__bar_7") = ocamlDemangle false (str "camlFoo__bar_7").
Proof.
  refine (tag_is_not_inspected false (str "XYZ_Foo__bar_7") (str "camlFoo__bar_7") _ _ eq_refl);
    vm_compute; lia.
Defined.


(** ** Escapes, runs of underscores and the end of the input *)

(** A NUL in the buffer hides what follows it, the trim included. *)
Lemma finish_nul (cap : nat) (p r : bytes) :
  length (p ++ NUL :: r) < cap ->
  finish cap (p ++ NUL :: r) = Ok (c_str p).
Proof.
  intros Hcap. destruct (has_numeric_suffix (p ++ NUL :: r)) eqn:Hs.
  - destruct (has_numeric_suffix_elim _ Hs) as (p' & ds & E & Hne & Hds).
    rewrite E in Hcap |- *. rewrite finish_cut by assumption.
    symmetry in E. apply app_eq_app in E.
    destruct E as (l & [[-> E] | [-> E]]).
    + destruct l as [|x l]; [discriminate E|].
      injection E as <- _. now rewrite c_str_app_nul.
    + destruct l as [|x l]; [discriminate E|].
      injection E as _ ->. rewrite forallb_app in Hds.
      apply andb_prop in Hds. destruct Hds as [_ Hds]. discriminate Hds.
  - rewrite finish_keep by assumption. f_equal. apply c_str_app_nul.
Qed.

Lemma escape_value_right_none (d x : ascii) :
  hexValue x = None -> escape_value d x = None.
Proof. intros H. unfold escape_value. rewrite H. now destruct (hexValue d). Qed.

Lemma escape_value_left_none (x e : ascii) :
  hexValue x = None -> escape_value x e = None.
Proof. intros H. unfold escape_value. now rewrite H. Qed.

(** Bytes that match neither token are copied, whatever follows them, when
    the next byte [x] cannot complete a token. *)
Lemma spec_scan_literal_app (p : bytes) (x : ascii) (t : bytes) :
  has_separator p = false -> has_escape p = false ->
  Ascii.eqb x "_" = false -> hexValue x = None ->
  spec_scan (p ++ x :: t) = p ++ spec_scan (x :: t).
Proof.
  intros Hs He Hx Hv. induction p as [|c p IH]; [reflexivity|].
  specialize (IH (has_separator_tail _ _ Hs) (has_escape_tail _ _ He)).
  rewrite <- !app_comm_cons. rewrite <- IH. clear IH.
  destruct p as [|d [|e v]].
  - cbn [app]. destruct t as [|e v].
    + rewrite spec_scan_two, Hx, andb_false_r. reflexivity.
    + rewrite spec_scan_three, Hx, andb_false_r.
      rewrite escape_value_left_none by assumption.
      now destruct (Ascii.eqb c "$").
  - cbn [app]. rewrite spec_scan_three.
    cbn [has_separator] in Hs. apply orb_false_elim in Hs. destruct Hs as [-> _].
    rewrite escape_value_right_none by assumption.
    now destruct (Ascii.eqb c "$").
  - cbn [app]. rewrite spec_scan_three.
    cbn [has_separator] in Hs. apply orb_false_elim in Hs. destruct Hs as [-> _].
    cbn [has_escape] in He. apply orb_false_elim in He. destruct He as [He _].
    destruct (Ascii.eqb c "$"); [|reflexivity].
    cbn [andb] in He. unfold is_hex_digit, escape_value in *.
    destruct (hexValue d); [|reflexivity].
    destruct (hexValue e); [discriminate He | reflexivity].
Qed.

(** X5.  An escape ["$00"] ends the visible result.  After a part [p] of
    copied bytes (no separator, no escape) the result is [p], whatever
    comes after the escape, and [p] is not trimmed even when it ends in an
    underscore and digits. *)
Theorem nul_escape_ends_result (ndebug : bool) (tag p q : bytes)
  (Htag : length tag = 4) (Ntag : no_nul tag = true)
  (Np : no_nul p = true)
  (Hsep : has_separator p = false) (Hesc : has_escape p = false)
  (Nq : no_nul q = true) :
  ocamlDemangle ndebug (tag ++ p ++ "$" :: "0" :: "0" :: q) = Ok p.
Proof.
  destruct (demangle_tagged ndebug tag (p ++ "$" :: "0" :: "0" :: q) Htag Ntag)
    as [-> Hfit].
  - rewrite no_nul_app, Np. exact Nq.
  - destruct p; discriminate.
  - rewrite spec_scan_literal_app, (spec_scan_escape "0" "0" NUL) in * by auto.
    rewrite finish_nul by assumption. now rewrite c_str_fixed.
Qed.

Lemma nul_escape_ends_result_witness :
  ocamlDemangle false (str "camlFoo_42$00Bar_7") = Ok (str "Foo_42").
Proof.
  exact (nul_escape_ends_result false (str "caml") (str "Foo_42") (str "Bar_7")
           eq_refl eq_refl eq_refl eq_refl eq_refl eq_refl).
Defined.

Lemma spec_scan_lower_le (n : nat) :
  forall s, length s <= n -> length s <= 3 * length (spec_scan s).
Proof.
  induction n as [|n IH]; intros s Hn.
  - destruct s; [simpl; lia | simpl in Hn; lia].
  - destruct s as [|c [|d [|e v]]]; [simpl; lia | simpl; lia | |].
    + rewrite spec_scan_two.
      destruct (Ascii.eqb c "_" && Ascii.eqb d "_"); simpl; lia.
    + rewrite spec_scan_three. simpl in Hn.
      assert (H1 : length v <= 3 * length (spec_scan v)) by (apply IH; lia).
      assert (H2 : length (e :: v) <= 3 * length (spec_scan (e :: v)))
        by (apply IH; simpl; lia).
      assert (H3 : length (d :: e :: v) <= 3 * length (spec_scan (d :: e :: v)))
        by (apply IH; simpl; lia).
      cbn [length] in H2, H3.
      destruct (Ascii.eqb c "_" && Ascii.eqb d "_"); [cbn [length]; lia|].
      destruct (if Ascii.eqb c "$" then escape_value d e else None);
        cbn [length]; lia.
Qed.

(** X6.  A turn of the loop consumes at most 3 bytes for the byte it
    writes: on an input of length at least 5 the scan writes at least a
    third of the bytes after the tag, and at least one. *)
Theorem scan_output_lower_bound (sym : bytes) (H5 : 5 <= strlen sym) :
  exists out, main_scan sym = Ok out
              /\ strlen sym - 4 <= 3 * length out
              /\ out <> [].
Proof.
  exists (spec_scan (skipn 4 (c_str sym))).
  split; [apply main_scan_spec|].
  pose proof (spec_scan_lower_le _ (skipn 4 (c_str sym)) (Nat.le_refl _)) as H.
  rewrite length_skipn in H. fold (strlen sym) in H.
  split; [exact H|].
  intros E. rewrite E in H. simpl in H. lia.
Qed.

Lemma scan_output_lower_bound_witness :
  5 <= strlen (str "caml$41$42")
  /\ exists out, main_scan (str "caml$41$42") = Ok out
                 /\ strlen (str "caml$41$42") - 4 <= 3 * length out
                 /\ out <> [].
Proof.
  assert (H : 5 <= strlen (str "caml$41$42")) by (vm_compute; lia).
  split; [exact H|]. exact (scan_output_lower_bound (str "caml$41$42") H).
Defined.

Lemma main_scan_tagged (tag body : bytes) :
  length tag = 4 -> no_nul tag = true -> no_nul body = true ->
  main_scan (tag ++ body) = Ok (spec_scan body).
Proof.
  intros Ht Nt Nb. rewrite main_scan_spec.
  destruct (tagged_c_str tag body Ht Nt Nb) as (_ & _ & ->). reflexivity.
Qed.

Lemma spec_scan_pairs (k : nat) (t : bytes) :
  spec_scan (repeat "_" (2 * k) ++ t) = repeat "." k ++ spec_scan t.
Proof.
  induction k as [|k IH]; [reflexivity|].
  replace (2 * S k) with (S (S (2 * k))) by lia.
  cbn [repeat app]. now rewrite spec_scan_separator, IH.
Qed.

Lemma spec_scan_lone_underscore (t : bytes) :
  hd NUL t <> "_" -> spec_scan ("_" :: t) = "_" :: spec_scan t.
Proof.
  intros H. destruct t as [|d [|e v]]; [reflexivity| |];
    simpl in H; apply Ascii.eqb_neq in H.
  - now rewrite spec_scan_two, H.
  - now rewrite spec_scan_three, H.
Qed.

Lemma no_nul_repeat_underscore (n : nat) : no_nul (repeat "_" n) = true.
Proof. induction n; [reflexivity | assumption]. Qed.

(** X7.  A run of [n] underscores after bytes that are neither ['_'] nor
    ['$'], and before a rest [t] that starts with no underscore, is paired
    from the left: it gives [n / 2] dots, and one underscore after them
    when [n] is odd; [t] is then scanned as it is on its own. *)
Theorem underscore_run_pairs_from_left (tag p : bytes) (n : nat) (t o : bytes)
  (Htag : length tag = 4) (Ntag : no_nul tag = true)
  (Hp : forallb plain p = true) (Nt : no_nul t = true)
  (Hhd : hd NUL t <> "_")
  (Hscan : main_scan (tag ++ t) = Ok o) :
  main_scan (tag ++ p ++ repeat "_" n ++ t)
  = Ok (p ++ repeat "." (n / 2) ++ repeat "_" (n mod 2) ++ o).
Proof.
  rewrite main_scan_tagged in Hscan by assumption.
  assert (Ho : spec_scan t = o) by congruence. clear Hscan.
  rewrite main_scan_tagged; try assumption;
    [| now rewrite !no_nul_app, (plain_no_nul p Hp), no_nul_repeat_underscore ].
  f_equal. rewrite spec_scan_plain_app by assumption. f_equal.
  rewrite (Nat.div_mod_eq n 2) at 1.
  rewrite repeat_app, <- app_assoc, spec_scan_pairs. f_equal.
  pose proof (Nat.mod_upper_bound n 2 ltac:(lia)) as Hm.
  destruct (n mod 2) as [|[|m]]; [now rewrite <- Ho | | lia].
  cbn [repeat app]. now rewrite spec_scan_lone_underscore, Ho.
Qed.

Lemma underscore_run_pairs_from_left_witness :
  main_scan (str "camla_____b") = Ok (str "a.._b").
Proof.
  refine (underscore_run_pairs_from_left (str "caml") (str "a") 5 (str "b") (str "b")
            eq_refl eq_refl eq_refl eq_refl _ eq_refl).
  discriminate.
Defined.

(** A byte [x] that is no underscore and no hex digit completes no token
    begun before it: the scan of what precedes it is the scan of that part
    alone. *)
Lemma spec_scan_split_le (n : nat) (x : ascii) (t : bytes) :
  Ascii.eqb x "_" = false -> hexValue x = None ->
  forall p, length p <= n ->
    spec_scan (p ++ x :: t) = spec_scan p ++ spec_scan (x :: t).
Proof.
  intros Hx Hv. induction n as [|n IH]; intros p Hn.
  - destruct p; [reflexivity | simpl in Hn; lia].
  - destruct p as [|c [|d [|e v]]]; [reflexivity | | |].
    + cbn [app]. destruct t as [|e v].
      * rewrite spec_scan_two, Hx, andb_false_r. reflexivity.
      * rewrite spec_scan_three, Hx, andb_false_r.
        rewrite escape_value_left_none by assumption.
        now destruct (Ascii.eqb c "$").
    + cbn [app]. rewrite spec_scan_three, spec_scan_two.
      destruct (Ascii.eqb c "_" && Ascii.eqb d "_"); [reflexivity|].
      rewrite escape_value_right_none by assumption.
      change (d :: x :: t) with ([d] ++ x :: t).
      rewrite (IH [d]) by (simpl in *; lia).
      now destruct (Ascii.eqb c "$").
    + simpl in Hn.
      change ((c :: d :: e :: v) ++ x :: t) with (c :: d :: e :: (v ++ x :: t)).
      rewrite !spec_scan_three.
      destruct (Ascii.eqb c "_" && Ascii.eqb d "_").
      * change (e :: v ++ x :: t) with ((e :: v) ++ x :: t).
        rewrite (IH (e :: v)) by (simpl; lia). reflexivity.
      * destruct (if Ascii.eqb c "$" then escape_value d e else None).
        -- rewrite (IH v) by lia. reflexivity.
        -- change (d :: e :: v ++ x :: t) with ((d :: e :: v) ++ x :: t).
           rewrite (IH (d :: e :: v)) by (simpl; lia). reflexivity.
Qed.

Lemma spec_scan_before_dollar (p t : bytes) :
  spec_scan (p ++ "$" :: t) = spec_scan p ++ spec_scan ("$" :: t).
Proof. now apply (spec_scan_split_le (length p)). Qed.

(** The call on a tag and a body, from the scan of the body. *)
Lemma main_scan_tagged_inv (tag p o : bytes) :
  length tag = 4 -> no_nul tag = true -> no_nul p = true ->
  main_scan (tag ++ p) = Ok o -> spec_scan p = o.
Proof.
  intros Ht Nt Np H. rewrite main_scan_tagged in H by assumption. congruence.
Qed.

(** X8.  The trim looks at decoded bytes: whatever precedes it, an
    underscore written as an escape (["$5f"] or ["$5F"]) and followed by
    decimal digits up to the end is cut with them, and what the scan wrote
    for the bytes before the escape is returned untrimmed (up to a NUL it
    may hold). *)
Theorem escaped_underscore_trimmed (ndebug : bool) (tag p o : bytes)
  (d e : ascii) (ds : bytes)
  (Htag : length tag = 4) (Ntag : no_nul tag = true)
  (Np : no_nul p = true)
  (Hscan : main_scan (tag ++ p) = Ok o)
  (Hde : escape_value d e = Some "_")
  (Hne : ds <> []) (Hds : forallb isdigit ds = true) :
  ocamlDemangle ndebug (tag ++ p ++ "$" :: d :: e :: ds) = Ok (c_str o).
Proof.
  apply main_scan_tagged_inv in Hscan; try assumption. subst o.
  destruct (escape_value_inv _ _ _ Hde) as (Nd & Ne).
  pose proof (digits_plain ds Hds) as Pds.
  destruct (demangle_tagged ndebug tag (p ++ "$" :: d :: e :: ds) Htag Ntag)
    as [-> Hfit].
  - rewrite no_nul_app, Np. unfold no_nul. cbn [forallb].
    rewrite Nd, Ne. cbn [negb andb is_nul Ascii.eqb Bool.eqb NUL zero].
    now apply plain_no_nul.
  - destruct p; discriminate.
  - assert (E : spec_scan (p ++ "$" :: d :: e :: ds) = spec_scan p ++ "_" :: ds).
    { rewrite spec_scan_before_dollar, (spec_scan_escape d e "_") by assumption.
      now rewrite (spec_scan_plain ds). }
    rewrite E in *. now rewrite finish_cut.
Qed.

Lemma escaped_underscore_trimmed_witness :
  ocamlDemangle false (str "camlA__B_1$5F42") = Ok (str "A.B_1").
Proof.
  refine (escaped_underscore_trimmed false (str "caml") (str "A__B_1") (str "A.B_1")
            "5" "F" (str "42") eq_refl eq_refl eq_refl eq_refl eq_refl _ eq_refl).
  discriminate.
Defined.

Lemma c_str_prefix (l : bytes) : exists rest, l = c_str l ++ rest.
Proof.
  induction l as [|c l (rest & IH)]; [now exists []|].
  simpl. destruct (is_nul c).
  - now exists (c :: l).
  - exists rest. simpl. now f_equal.
Qed.

Lemma finish_prefix (cap : nat) (out : bytes) :
  length out < cap ->
  exists res rest, finish cap out = Ok res /\ out = res ++ rest.
Proof.
  intros Hcap. destruct (has_numeric_suffix out) eqn:Hs.
  - destruct (has_numeric_suffix_elim out Hs) as (p & ds & -> & Hne & Hds).
    destruct (c_str_prefix p) as (rest & E).
    exists (c_str p), (rest ++ "_" :: ds).
    split; [now apply finish_cut|].
    rewrite app_assoc. now rewrite <- E.
  - destruct (c_str_prefix out) as (rest & E).
    exists (c_str out), rest. split; [now apply finish_keep | exact E].
Qed.

(** X9.  The result is always a prefix of what the main scan wrote: the
    trim and the terminator shorten the output and change no byte of
    it. *)
Theorem result_is_prefix_of_scan (ndebug : bool) (sym : bytes)
  (H5 : 5 <= strlen sym) :
  exists out res rest,
    main_scan sym = Ok out
    /\ ocamlDemangle ndebug sym = Ok res
    /\ out = res ++ rest.
Proof.
  destruct (finish_prefix (strlen sym + 1) _ (scan_fits sym)) as (res & rest & Hf & E).
  exists (spec_scan (skipn 4 (c_str sym))), res, rest.
  split; [apply main_scan_spec|].
  split; [now rewrite ocamlDemangle_run | exact E].
Qed.

Lemma result_is_prefix_of_scan_witness :
  5 <= strlen (str "camlFoo_1_2")
  /\ exists out res rest,
       main_scan (str "camlFoo_1_2") = Ok out
       /\ ocamlDemangle false (str "camlFoo_1_2") = Ok res
       /\ out = res ++ rest.
Proof.
  assert (H : 5 <= strlen (str "camlFoo_1_2")) by (vm_compute; lia).
  split; [exact H|]. exact (result_is_prefix_of_scan false _ H).
Defined.

(** The two hex digits, lowercase, that spell a byte. *)
Lemma byte_has_spelling (b : ascii) :
  exists d e, escape_value d e = Some b.
Proof.
  exists (nth (nat_of_ascii b / 16) (str "0123456789abcdef") NUL),
         (nth (nat_of_ascii b mod 16) (str "0123456789abcdef") NUL).
  each_char b; reflexivity.
Qed.

Lemma drop_digits_forallb (f : ascii -> bool) (r : bytes) :
  forallb f r = true -> forallb f (drop_digits r) = true.
Proof.
  induction r as [|c r IH]; [reflexivity|]. intros H. simpl.
  destruct (isdigit c); [|exact H].
  simpl in H. apply andb_prop in H. now apply IH.
Qed.

Lemma one_more_byte_no_suffix (p : bytes) (b : ascii) :
  forallb (fun c => negb (Ascii.eqb c "_")) p = true ->
  has_numeric_suffix (p ++ [b]) = false.
Proof.
  intros H. unfold has_numeric_suffix. rewrite rev_app_distr. cbn [rev app].
  rewrite <- forallb_rev' in H. apply (drop_digits_forallb _ _) in H.
  destruct (drop_digits (rev p)) as [|x q]; [apply andb_false_r|].
  simpl in H. apply andb_prop in H. destruct H as [Hx _].
  apply negb_true_iff in Hx. rewrite Hx. apply andb_false_r.
Qed.

(** X10.  Every byte but NUL can be written as an escape: there are two hex
    digits [d], [e] such that ["$"], [d], [e] after copied bytes [p]
    decodes to [p] followed by that byte. *)
Theorem every_byte_has_an_escape (ndebug : bool) (tag p : bytes) (b : ascii)
  (Htag : length tag = 4) (Ntag : no_nul tag = true)
  (Hp : forallb plain p = true)
  (Hb : is_nul b = false) :
  exists d e,
    isxdigit d = true /\ isxdigit e = true
    /\ ocamlDemangle ndebug (tag ++ p ++ ["$"; d; e]) = Ok (p ++ [b]).
Proof.
  destruct (byte_has_spelling b) as (d & e & Hde).
  exists d, e.
  pose proof (escape_value_digits d e) as X. rewrite Hde in X.
  apply andb_prop in X. destruct X as [Xd Xe].
  destruct (escape_value_inv _ _ _ Hde) as (Nd & Ne).
  pose proof (plain_no_nul p Hp) as Np.
  split; [exact Xd|]. split; [exact Xe|].
  destruct (demangle_tagged ndebug tag (p ++ ["$"; d; e]) Htag Ntag) as [-> Hfit].
  - rewrite no_nul_app, Np. unfold no_nul. cbn [forallb]. now rewrite Nd, Ne.
  - destruct p; discriminate.
  - rewrite spec_scan_plain_app, (spec_scan_escape d e b) in * by assumption.
    cbn [spec_scan] in *.
    rewrite finish_keep;
      [| exact Hfit | now apply one_more_byte_no_suffix, plain_no_underscore ].
    rewrite c_str_fixed; [reflexivity|].
    rewrite no_nul_app, Np. unfold no_nul. cbn [forallb]. now rewrite Hb.
Qed.

Lemma every_byte_has_an_escape_witness :
  exists d e,
    isxdigit d = true /\ isxdigit e = true
    /\ ocamlDemangle false (str "caml" ++ str "x" ++ ["$"; d; e])
       = Ok (str "x" ++ ["+"]).
Proof.
  exact (every_byte_has_an_escape false (str "caml") (str "x") "+"
           eq_refl eq_refl eq_refl eq_refl).
Defined.

(** X11.  A dollar at the end of the input, alone or with one byte after
    it, is not an escape, whatever precedes it: the result is what the scan
    wrote for the bytes before it, followed by the dollar (and the byte),
    untrimmed (up to a NUL it may hold).  The lookahead stops at the
    terminator. *)
Theorem incomplete_escape_is_copied (ndebug : bool) (tag p o : bytes) (d : ascii)
  (Htag : length tag = 4) (Ntag : no_nul tag = true)
  (Np : no_nul p = true)
  (Hscan : main_scan (tag ++ p) = Ok o)
  (Nd : is_nul d = false) :
  ocamlDemangle ndebug (tag ++ p ++ ["$"]) = Ok (c_str (o ++ ["$"]))
  /\ ocamlDemangle ndebug (tag ++ p ++ ["$"; d]) = Ok (c_str (o ++ ["$"; d])).
Proof.
  apply main_scan_tagged_inv in Hscan; try assumption. subst o.
  split.
  - destruct (demangle_tagged ndebug tag (p ++ ["$"]) Htag Ntag) as [-> Hfit].
    + now rewrite no_nul_app, Np.
    + destruct p; discriminate.
    + rewrite spec_scan_before_dollar in *. cbn [spec_scan] in *.
      rewrite finish_keep; [reflexivity | exact Hfit |].
      unfold has_numeric_suffix. rewrite rev_app_distr. reflexivity.
  - destruct (demangle_tagged ndebug tag (p ++ ["$"; d]) Htag Ntag) as [-> Hfit].
    + rewrite no_nul_app, Np. unfold no_nul. cbn [forallb]. now rewrite Nd.
    + destruct p; discriminate.
    + rewrite spec_scan_before_dollar in *.
      rewrite spec_scan_two in *. cbn [Ascii.eqb Bool.eqb andb] in *.
      rewrite finish_keep; [reflexivity | exact Hfit |].
      unfold has_numeric_suffix. rewrite rev_app_distr. cbn.
      apply andb_false_r.
Qed.

Lemma incomplete_escape_is_copied_witness :
  ocamlDemangle false (str "camlA__B_1$4") = Ok (str "A.B_1$4").
Proof.
  exact (proj2 (incomplete_escape_is_copied false (str "caml") (str "A__B_1") (str "A.B_1") "4"
                  eq_refl eq_refl eq_refl eq_refl eq_refl)).
Defined.

(** ** The unchecked [malloc] and the [int] length *)

Lemma strlen_repeat (c : ascii) (n : nat) :
  is_nul c = false -> strlen (repeat c n) = n.
Proof.
  intros H. unfold strlen. induction n as [|n IH]; [reflexivity|].
  simpl. rewrite H. simpl. now rewrite IH.
Qed.

(** X12.  [malloc] is not checked and the length is an [int].  When
    [malloc] returns NULL, every call that gets past the assertion (under
    NDEBUG, every call) faults on its first write to the buffer and returns
    nothing.  An input of [2 ^ 31] to [2 ^ 32 - 1] bytes has a negative
    [len]: with assertions on it stops at the assertion, long as it is. *)
Theorem unchecked_malloc_and_int_length (sym : bytes) :
  (forall ndebug, ndebug = true \/ (5 <= int_of_size (strlen sym))%Z ->
     ocamlDemangle_call ndebug false sym = Err OutOfBounds)
  /\ ((2 ^ 31 <= Z.of_nat (strlen sym) < 2 ^ 32)%Z ->
        forall malloc_ok, ocamlDemangle_call false malloc_ok sym = Err AssertionFailed).
Proof.
  split; [intros ndebug; apply ocamlDemangle_call_null|].
  intros H malloc_ok. pose proof (int_of_size_wraps _ H) as Hneg.
  unfold ocamlDemangle_call, assert.
  destruct (Z.leb_spec 5 (int_of_size (strlen sym))); [lia | reflexivity].
Qed.

Lemma unchecked_malloc_and_int_length_witness :
  ocamlDemangle_call false false (str "camlFoo") = Err OutOfBounds
  /\ ocamlDemangle_call false true (repeat "a" (Z.to_nat (2 ^ 31 + 5)))
     = Err AssertionFailed.
Proof.
  split.
  - refine (proj1 (unchecked_malloc_and_int_length (str "camlFoo")) false _).
    right. vm_compute. discriminate.
  - refine (proj2 (unchecked_malloc_and_int_length (repeat "a" (Z.to_nat (2 ^ 31 + 5)))) _ true).
    rewrite strlen_repeat by reflexivity. rewrite Z2Nat.id by lia. lia.
Defined.
